(** * Geometric Painter: a shallow embedding of the rendering core

    The development follows [src/geometric-painter.jsx].  JavaScript numbers
    that carry pointer coordinates, radii and opacities are idealised as real
    numbers ([R]); array indices, pixel channels and loop counters are
    integers ([Z], [nat]).  [Math.floor] is [Zfloor], [Math.ceil] is [Zceil].

    Part I holds the model (one definition per source function), Part II the
    vocabulary used to state properties, Part III the proofs. *)

From Stdlib Require Import ZArith List Reals Lra Lia Bool.
From stdpp Require Import base list.
Import ListNotations.

(* ===================================================================== *)
(** * Part I.  The model                                                  *)
(* ===================================================================== *)

(** ** History manager ([saveToHistory], [undo], [clearCanvas]) *)

Section HistoryModel.
Context {Snap : Type}.

(** [const maxUndoSteps = 20] *)
Definition maxUndoSteps : nat := 20.

(** [undoHistoryRef.current] (oldest snapshot first, newest last, as the
    JS array holds them) together with the React state [canUndo]. *)
Record Hist := mkHist {
  undoHistory : list Snap;
  canUndo : bool
}.

(** State of a freshly mounted component: [useRef([])], [useState(false)]. *)
Definition emptyHist : Hist := mkHist [] false.

(** [saveToHistory]: the argument is [canvasRef.current] already encoded by
    [toDataURL()], [None] when the ref is still null. *)
Definition saveToHistory (canvas : option Snap) (h : Hist) : Hist :=
  match canvas with
  | None => h
  | Some imageData =>
      let pushed := undoHistory h ++ [imageData] in
      let limited :=
        if (maxUndoSteps <? length pushed)%nat then tail pushed else pushed in
      mkHist limited (1 <? length limited)%nat
  end.

(** [undo]: returns the new history and the snapshot whose decoding was
    scheduled ([img.src = previousState]); [None] when the call returned at
    the floor guard. *)
Definition undo (h : Hist) : Hist * option Snap :=
  if (length (undoHistory h) <=? 1)%nat then (h, None)
  else
    let popped := removelast (undoHistory h) in
    (mkHist popped (1 <? length popped)%nat, last popped).

(** The history part of [clearCanvas]: the stack is emptied, the cleared
    canvas is saved, and [setCanUndo(false)] has the last word. *)
Definition clearHistory (cleared : Snap) (h : Hist) : Hist :=
  let h1 := saveToHistory (Some cleared) (mkHist [] (canUndo h)) in
  mkHist (undoHistory h1) false.

(** The mount effect saves the blank canvas as the baseline. *)
Definition initHist (blank : Snap) : Hist :=
  saveToHistory (Some blank) emptyHist.

(** User-level operations on the history. *)
Inductive HistOp :=
| Commit (s : Snap)
| Undo
| Clear (s : Snap).

Definition histStep (h : Hist) (op : HistOp) : Hist :=
  match op with
  | Commit s => saveToHistory (Some s) h
  | Undo => fst (undo h)
  | Clear s => clearHistory s h
  end.

Definition histRun (ops : list HistOp) (h : Hist) : Hist :=
  fold_left histStep ops h.

(** [n] commits in a row. *)
Definition commits (cs : list Snap) (h : Hist) : Hist :=
  histRun (map Commit cs) h.

(** [k] presses of undo in a row. *)
Fixpoint undoTimes (k : nat) (h : Hist) : Hist :=
  match k with
  | O => h
  | S k' => undoTimes k' (fst (undo h))
  end.

(** An undo "succeeds" when it pops a snapshot and schedules a restore. *)
Definition undoSucceeds (h : Hist) : bool :=
  match snd (undo h) with Some _ => true | None => false end.

End HistoryModel.

Arguments Hist : clear implicits.
Arguments HistOp : clear implicits.

(** ** Configuration and drawing vocabulary *)

Open Scope R_scope.

(** A point [{x, y}] in canvas coordinates. *)
Definition Point : Type := (R * R)%type.

(** A palette colour, kept decoded: the three channels [hexToRgb] extracts
    from the ['#rrggbb'] string held in [selectedColor]. *)
Record Color := mkColor { red : Z; green : Z; blue : Z }.

Inductive BrushMode := Segments | Dots | Radials | Crosshatch | Stipple | Fine.
Inductive Shape := Concentric | Radial | Mesh | Dotted | Circle | Mandala.
Inductive FillPattern := Solid | PatDots | PatLines | PatCrosshatch | PatStipple.
Inductive SymmetryMode := SymNone | SymMirror.

(** The React state the engines read and never write. *)
Record Config := mkConfig {
  selectedColor : Color;
  brushSize : R;
  brushMode : BrushMode;
  opacity : R;
  lineWeight : R;
  shapeMode : option Shape;
  bleedEnabled : bool;
  blendMode : bool;
  fillMode : bool;
  fillPattern : FillPattern;
  symmetryMode : SymmetryMode;
  mirrorAngle : R;
  isDraggingPanel : bool
}.

(** The canvas raster: [getImageData(0, 0, width, height).data] is [data],
    four channels per pixel, rows first. *)
Record Canvas := mkCanvas {
  width : Z;
  height : Z;
  data : list Z
}.

(** The style a drawing call is issued with: the colour, the alpha written
    into the [rgba()] style string (1 for a plain hex style) and the
    context's [globalAlpha]. *)
Record Ink := mkInk {
  inkColor : Color;
  inkAlpha : R;
  inkGlobalAlpha : R
}.

(** One ink-laying call sequence on the 2D context. *)
Inductive Paint :=
| StrokeLine (ink : Ink) (lineWidth : R) (x1 y1 x2 y2 : R) (* moveTo, lineTo, stroke *)
| StrokeArc (ink : Ink) (lineWidth : R) (cx cy r a0 a1 : R) (* arc, stroke *)
| FillArc (ink : Ink) (cx cy r : R)              (* arc 0..2pi, fill *)
| FillRect (ink : Ink) (x y w h : R)              (* fillRect *)
| PutImageData (img : list Z) (w h : Z) (dx dy : R) (globalAlpha : R)
| FillRadialGradient (cx cy r : R) (sample : list (option Z)) (alpha : R).

(** What the page gets from the browser: the rasteriser behind the 2D
    context (the raster data a drawing call leaves on a canvas) and the
    stream of values [Math.random()] hands out. *)
Record Browser := mkBrowser {
  rasterize : Paint -> Canvas -> list Z;
  random : nat -> R
}.

(** One drawing call: it rewrites the raster and never resizes the canvas. *)
Definition paint (env : Browser) (p : Paint) (c : Canvas) : Canvas :=
  mkCanvas (width c) (height c) (rasterize env p c).

(** A run of drawing calls, in issue order. *)
Definition paintAll (env : Browser) (ps : list Paint) (c : Canvas) : Canvas :=
  fold_left (fun c' p => paint env p c') ps c.

(** [for (let i = 0; i < n; i++)] collecting what each round emits. *)
Definition forUpTo {A} (n : Z) (body : nat -> list A) : list A :=
  flat_map body (seq 0 (Z.to_nat n)).

(** [for (let i = lo; i < n; i += step)] on integers, [0 < step]. *)
Definition forStep {A} (n step : Z) (body : Z -> list A) : list A :=
  flat_map (fun k => body (Z.of_nat k * step)%Z)
           (seq 0 (Z.to_nat ((n + step - 1) / step))).

(** [Math.atan2(dy, dx)] on reals (signed zeros aside). *)
Definition atan2 (dy dx : R) : R :=
  if Rlt_dec 0 dx then atan (dy / dx)
  else if Rlt_dec dx 0 then
    if Rle_dec 0 dy then atan (dy / dx) + PI else atan (dy / dx) - PI
  else if Rlt_dec 0 dy then PI / 2
  else if Rlt_dec dy 0 then - PI / 2
  else 0.

(** [Math.sqrt(dx * dx + dy * dy)] *)
Definition distanceOf (dx dy : R) : R := sqrt (dx * dx + dy * dy).

(** ** Brush stroke engine ([drawBrushStroke]) *)

(** Brush strokes use the plain hex colour under [globalAlpha = opacity]. *)
Definition brushInk (cfg : Config) : Ink :=
  mkInk (selectedColor cfg) 1 (opacity cfg).

(** The [while (currentDist < distance)] loop of the segments brush.  Each
    round adds 5 to [currentDist], so [ceil(distance / 5)] rounds reach the
    exit test; that count is the fuel [brushStrokePaints] passes. *)
Fixpoint segmentsLoop (fuel : nat) (ink : Ink) (lineWidth : R) (last : Point)
    (dx dy distance currentDist : R) (drawing : bool) : list Paint :=
  match fuel with
  | O => []
  | S fuel' =>
      if Rlt_dec currentDist distance then
        let t := currentDist / distance in
        let px := fst last + dx * t in
        let py := snd last + dy * t in
        if drawing then
          let endDist := Rmin (currentDist + 5) distance in
          let endT := endDist / distance in
          let endX := fst last + dx * endT in
          let endY := snd last + dy * endT in
          StrokeLine ink lineWidth px py endX endY
            :: segmentsLoop fuel' ink lineWidth last dx dy distance (currentDist + 5) (negb drawing)
        else
          segmentsLoop fuel' ink lineWidth last dx dy distance (currentDist + 5) (negb drawing)
      else []
  end.

(** The body of [drawBrushStroke(ctx, x, y)]: [last] is
    [lastPosRef.current] as the function finds it, [rng] the number of
    [Math.random()] values already drawn.  The result is the ink laid, in
    order. *)
Definition brushStrokePaints (env : Browser) (cfg : Config) (rng : nat)
    (last : Point) (x y : R) : list Paint :=
  let dx := x - fst last in
  let dy := y - snd last in
  let distance := distanceOf dx dy in
  let angle := atan2 dy dx in
  match brushMode cfg with
  | Segments =>
      segmentsLoop (Z.to_nat (Zceil (distance / 5))) (brushInk cfg) (lineWeight cfg)
                   last dx dy distance 0 true
  | Dots =>
      let dotSpacing := 3 in
      let numDots := Zfloor (distance / dotSpacing) in
      forUpTo (numDots + 1) (fun i =>
        let t := INR i / Rmax (IZR numDots) 1 in
        let px := fst last + dx * t in
        let py := snd last + dy * t in
        let dotSize := lineWeight cfg in
        [FillArc (brushInk cfg) px py dotSize])
  | Radials =>
      let burstSpacing := 20 in
      let numBursts := Zfloor (distance / burstSpacing) in
      forUpTo (numBursts + 1) (fun i =>
        let t := INR i / Rmax (IZR numBursts) 1 in
        let px := fst last + dx * t in
        let py := snd last + dy * t in
        let numLines := 8%Z in
        let burstSize := brushSize cfg * 0.3 in
        forUpTo numLines (fun j =>
          let burstAngle := INR j / IZR numLines * PI * 2 in
          [StrokeLine (brushInk cfg) (lineWeight cfg * 0.5) px py
             (px + cos burstAngle * burstSize) (py + sin burstAngle * burstSize)]))
  | Crosshatch =>
      let hatchSpacing := 15 in
      let numHatches := Zfloor (distance / hatchSpacing) in
      forUpTo (numHatches + 1) (fun i =>
        let t := INR i / Rmax (IZR numHatches) 1 in
        let px := fst last + dx * t in
        let py := snd last + dy * t in
        let hatchLength := brushSize cfg * 0.4 in
        let perpAngle := angle + PI / 2 in
        let crossAngle := angle + PI / 4 in
        [StrokeLine (brushInk cfg) (lineWeight cfg * 0.7)
           (px + cos perpAngle * hatchLength / 2) (py + sin perpAngle * hatchLength / 2)
           (px - cos perpAngle * hatchLength / 2) (py - sin perpAngle * hatchLength / 2);
         StrokeLine (brushInk cfg) (lineWeight cfg * 0.7)
           (px + cos crossAngle * hatchLength / 2) (py + sin crossAngle * hatchLength / 2)
           (px - cos crossAngle * hatchLength / 2) (py - sin crossAngle * hatchLength / 2)])
  | Stipple =>
      let numDots := Zfloor (distance * 0.5) in
      forUpTo numDots (fun i =>
        let t := INR i / IZR numDots in
        let centerX := fst last + dx * t in
        let centerY := snd last + dy * t in
        let offsetX := (random env (rng + 3 * i) - 0.5) * brushSize cfg in
        let offsetY := (random env (rng + 3 * i + 1) - 0.5) * brushSize cfg in
        let dotSize := lineWeight cfg * 0.5 * (0.5 + random env (rng + 3 * i + 2) * 0.5) in
        [FillArc (brushInk cfg) (centerX + offsetX) (centerY + offsetY) dotSize])
  | Fine =>
      [StrokeLine (brushInk cfg) (lineWeight cfg) (fst last) (snd last) x y]
  end.

(** How many [Math.random()] values the stroke draws. *)
Definition brushStrokeDraws (cfg : Config) (last : Point) (x y : R) : nat :=
  match brushMode cfg with
  | Stipple =>
      3 * Z.to_nat (Zfloor (distanceOf (x - fst last) (y - snd last) * 0.5))
  | _ => 0
  end.

(** ** Shape stamp engine ([drawShape]) *)

(** Stamps set [globalAlpha = opacity] and style through [hexToRgba]. *)
Definition shapeInk (cfg : Config) (alpha : R) : Ink :=
  mkInk (selectedColor cfg) alpha (opacity cfg).

(** [drawShape(ctx, x, y, shape)] *)
Definition drawShape (cfg : Config) (x y : R) (shape : Shape) : list Paint :=
  match shape with
  | Concentric =>
      let numRings := Zfloor (brushSize cfg / 8) in
      forUpTo numRings (fun i =>
        let radius := (INR i + 1) * (brushSize cfg / IZR numRings) in
        [StrokeArc (shapeInk cfg (opacity cfg * (1 - INR i / IZR numRings)))
                   (lineWeight cfg) x y radius 0 (PI * 2)])
  | Radial =>
      let numLines := 24%Z in
      forUpTo numLines (fun i =>
        let angle := INR i / IZR numLines * PI * 2 in
        [StrokeLine (shapeInk cfg (opacity cfg)) (lineWeight cfg) x y
           (x + cos angle * brushSize cfg) (y + sin angle * brushSize cfg)])
  | Mesh =>
      let numSegments := 16%Z in
      let ink := shapeInk cfg (opacity cfg * 0.6) in
      let lw := lineWeight cfg * 0.5 in
      [StrokeArc ink lw x y (brushSize cfg) 0 (PI * 2)]
      ++ forUpTo numSegments (fun i =>
           let angle := INR i / IZR numSegments * PI * 2 in
           [StrokeLine ink lw x y
              (x + cos angle * brushSize cfg) (y + sin angle * brushSize cfg)])
      ++ [StrokeArc ink lw x y (brushSize cfg * 0.5) 0 (PI * 2);
          StrokeArc ink lw x y (brushSize cfg * 0.25) 0 (PI * 2)]
  | Dotted =>
      let numDots := Zfloor (brushSize cfg / 3) in
      forUpTo numDots (fun i =>
        let angle := INR i / IZR numDots * PI * 2 in
        let dotX := x + cos angle * brushSize cfg in
        let dotY := y + sin angle * brushSize cfg in
        [FillArc (shapeInk cfg (opacity cfg)) dotX dotY (lineWeight cfg * 1.5)])
  | Circle =>
      [StrokeArc (shapeInk cfg (opacity cfg)) (lineWeight cfg) x y (brushSize cfg) 0 (PI * 2)]
  | Mandala =>
      let layers := 3%Z in
      let petals := 8%Z in
      let ink := shapeInk cfg (opacity cfg) in
      forUpTo layers (fun l =>
        let layer := INR l + 1 in
        let radius := brushSize cfg / IZR layers * layer in
        forUpTo petals (fun i =>
          let angle := INR i / IZR petals * PI * 2 in
          let petalX := x + cos angle * radius in
          let petalY := y + sin angle * radius in
          [StrokeArc ink (lineWeight cfg) petalX petalY (radius / 3) 0 (PI * 2)]))
      ++ [StrokeArc ink (lineWeight cfg) x y (brushSize cfg / 6) 0 (PI * 2)]
  end.

(** ** Bleed animator (the [animate] frame callback) *)

(** [bleedStateRef.current] *)
Record Bleed := mkBleed {
  bleedX : R;
  bleedY : R;
  radius : R;
  maxRadius : R
}.

(** The radius update at the head of every tick (lines 190-195). *)
Definition growRadius (st : Bleed) : Bleed :=
  let grown := radius st + 1.5 in
  let capped := if Rlt_dec (maxRadius st) grown then maxRadius st else grown in
  mkBleed (bleedX st) (bleedY st) capped (maxRadius st).

(** The JS remainder [a % b] on numbers: the quotient is truncated toward
    zero.  [b = 0] (a NaN in JS) is excluded by the caller. *)
Definition jsRem (a b : R) : R :=
  let q := a / b in
  a - b * IZR (if Rle_dec 0 q then Zfloor q else Zceil q).

(** [numShapes > 0 && state.radius % (brushSize * 0.5) < 2]; with a zero
    divisor the remainder is NaN and the test fails. *)
Definition stampDue (cfg : Config) (st : Bleed) : bool :=
  let half := brushSize cfg * 0.5 in
  if Req_dec_T half 0 then false
  else
    let numShapes := Zfloor (radius st / half) in
    (0 <? numShapes)%Z && (if Rlt_dec (jsRem (radius st) half) 2 then true else false).

(** What one tick draws once the radius is updated (lines 197-332).  In the
    two ring loops that [break] when [ringRadius > state.radius] the radii
    grow with the ring index, so leaving the loop at the first such ring and
    skipping every such ring emit the same calls. *)
Definition bleedPaints (env : Browser) (cfg : Config) (rng : nat) (st : Bleed)
    : list Paint :=
  match shapeMode cfg with
  | Some shape =>
      if stampDue cfg st then
        forUpTo 8 (fun i =>
          let angle := INR i / 8 * PI * 2 in
          let x := bleedX st + cos angle * radius st in
          let y := bleedY st + sin angle * radius st in
          drawShape cfg x y shape)
      else []
  | None =>
      match brushMode cfg with
      | Segments =>
          let numSegments := 24%Z in
          forUpTo numSegments (fun i =>
            let angle := INR i / IZR numSegments * PI * 2 in
            let startAngle := angle - 0.1 in
            let endAngle := angle + 0.1 in
            [StrokeArc (brushInk cfg) (lineWeight cfg)
                       (bleedX st) (bleedY st) (radius st) startAngle endAngle])
      | Dots =>
          let numRings := Zfloor (radius st / 15) in
          forUpTo numRings (fun k =>
            let ring := (Z.of_nat k + 1)%Z in
            let ringRadius := IZR ring * 15 in
            if Rlt_dec (radius st) ringRadius then []
            else
              let dotsPerRing := (12 * ring)%Z in
              forUpTo dotsPerRing (fun i =>
                let angle := INR i / IZR dotsPerRing * PI * 2 in
                let dotX := bleedX st + cos angle * ringRadius in
                let dotY := bleedY st + sin angle * ringRadius in
                [FillArc (brushInk cfg) dotX dotY (lineWeight cfg)]))
      | Radials =>
          let numLines := 16%Z in
          forUpTo numLines (fun i =>
            let angle := INR i / IZR numLines * PI * 2 in
            let innerRadius := radius st - 10 in
            let outerRadius := radius st in
            [StrokeLine (brushInk cfg) (lineWeight cfg * 0.5)
               (bleedX st + cos angle * innerRadius) (bleedY st + sin angle * innerRadius)
               (bleedX st + cos angle * outerRadius) (bleedY st + sin angle * outerRadius)])
      | Crosshatch =>
          let numLines := Zfloor (radius st / 8) in
          forUpTo numLines (fun i =>
            let angle := INR i / IZR numLines * PI * 2 in
            let x := bleedX st + cos angle * radius st in
            let y := bleedY st + sin angle * radius st in
            let perpAngle := angle + PI / 2 in
            let length := brushSize cfg * 0.3 in
            [StrokeLine (brushInk cfg) (lineWeight cfg * 0.7)
               (x + cos perpAngle * length / 2) (y + sin perpAngle * length / 2)
               (x - cos perpAngle * length / 2) (y - sin perpAngle * length / 2)])
      | Stipple =>
          let numRings := Zfloor (radius st / 20) in
          forUpTo numRings (fun k =>
            let ring := (Z.of_nat k + 1)%Z in
            let ringRadius := IZR ring * 20 in
            if Rlt_dec (radius st) ringRadius then []
            else
              let clustersPerRing := (8 * ring)%Z in
              let ringBase := (rng + 24 * k * (k + 1))%nat in
              forUpTo clustersPerRing (fun i =>
                let angle := INR i / IZR clustersPerRing * PI * 2 in
                let centerX := bleedX st + cos angle * ringRadius in
                let centerY := bleedY st + sin angle * ringRadius in
                forUpTo 3 (fun j =>
                  let at_ := (ringBase + 6 * i + 2 * j)%nat in
                  let offsetX := (random env at_ - 0.5) * brushSize cfg * 0.15 in
                  let offsetY := (random env (at_ + 1) - 0.5) * brushSize cfg * 0.15 in
                  [FillArc (brushInk cfg) (centerX + offsetX) (centerY + offsetY)
                           (lineWeight cfg * 0.5)])))
      | Fine =>
          [StrokeArc (brushInk cfg) (lineWeight cfg)
                     (bleedX st) (bleedY st) (radius st) 0 (PI * 2)]
      end
  end.

(** How many [Math.random()] values one tick draws. *)
Definition bleedDraws (cfg : Config) (st : Bleed) : nat :=
  match shapeMode cfg, brushMode cfg with
  | None, Stipple =>
      let numRings := Z.to_nat (Zfloor (radius st / 20)) in
      (24 * numRings * (numRings + 1))%nat
  | _, _ => 0%nat
  end.

(** ** Raster access *)

(** Reading a typed array: [None] is JS [undefined] (index out of range). *)
Definition jsGet (l : list Z) (i : Z) : option Z :=
  if (i <? 0)%Z then None else l !! Z.to_nat i.

(** The conversion a [Uint8ClampedArray] applies to a stored integer. *)
Definition clamp8 (v : Z) : Z := Z.max 0 (Z.min 255 v).

(** Writing a [Uint8ClampedArray]: out of range the store is dropped. *)
Definition jsSet (l : list Z) (i v : Z) : list Z :=
  if (i <? 0)%Z then l else <[Z.to_nat i := clamp8 v]> l.

(** One channel of the pixel at [(x, y)]; outside the canvas
    [getImageData] reads transparent black. *)
Definition channelAt (c : Canvas) (x y k : Z) : Z :=
  if ((0 <=? x) && (x <? width c) && (0 <=? y) && (y <? height c))%Z
  then default 0%Z (jsGet (data c) ((y * width c + x) * 4 + k))
  else 0%Z.

(** [ctx.getImageData(sx, sy, sw, sh).data]; [None] is the IndexSizeError
    thrown for an empty rectangle.  Only positive sizes reach the call. *)
Definition getImageData (c : Canvas) (sx sy sw sh : Z) : option (list Z) :=
  if ((sw =? 0) || (sh =? 0))%Z then None
  else Some
    (forUpTo sh (fun j =>
       forUpTo sw (fun i =>
         forUpTo 4 (fun k =>
           [channelAt c (sx + Z.of_nat i) (sy + Z.of_nat j) (Z.of_nat k)])))).

(** ** Blend / smudge engine ([drawBlend]) *)

(** [drawBlend(ctx, x, y, lastX, lastY)]: the canvas after the call, and
    whether the [catch] block ran ([console.error]). *)
Definition drawBlend (env : Browser) (cfg : Config) (c : Canvas)
    (x y lastX lastY : R) : Canvas * bool :=
  let blendRadius := brushSize cfg * 0.5 in
  let dx := x - lastX in
  let dy := y - lastY in
  let distance := distanceOf dx dy in
  if Rlt_dec distance 1 then (c, false)
  else
    let sourceX := Z.max 0 (Zfloor (lastX - blendRadius)) in
    let sourceY := Z.max 0 (Zfloor (lastY - blendRadius)) in
    let sourceWidth := Z.min (width c - sourceX) (Zceil (blendRadius * 2)) in
    let sourceHeight := Z.min (height c - sourceY) (Zceil (blendRadius * 2)) in
    if ((sourceWidth <=? 0) || (sourceHeight <=? 0))%Z then (c, false)
    else
      match getImageData c sourceX sourceY sourceWidth sourceHeight with
      | None => (c, true)
      | Some imageData =>
          let smudgeStrength := 0.5 in
          let offsetX := dx * smudgeStrength in
          let offsetY := dy * smudgeStrength in
          let c1 := paint env
                      (PutImageData imageData sourceWidth sourceHeight
                         (IZR sourceX + offsetX) (IZR sourceY + offsetY)
                         (opacity cfg * 0.8)) c in
          (* createRadialGradient rejects a negative radius *)
          if Rlt_dec blendRadius 0 then (c1, true)
          else
            match getImageData c1 (Zfloor x) (Zfloor y) 1 1 with
            | None => (c1, true)
            | Some sampleData =>
                (paint env
                   (FillRadialGradient x y blendRadius
                      [sampleData !! 0%nat; sampleData !! 1%nat; sampleData !! 2%nat]
                      (opacity cfg * 0.3)) c1,
                 false)
            end
      end.

(** ** Pattern tiles ([createPatternCanvas]) *)

(** A freshly created 20 x 20 canvas is transparent black. *)
Definition patternSize : Z := 20.
Definition blankTile : Canvas :=
  mkCanvas patternSize patternSize (repeat 0%Z (Z.to_nat (4 * patternSize * patternSize))).

(** The calls [createPatternCanvas(color)] issues on the tile. *)
Definition patternPaints (env : Browser) (cfg : Config) (rng : nat) (color : Color)
    : list Paint :=
  let size := patternSize in
  let ink := mkInk color 1 (opacity cfg) in
  FillRect (mkInk color (opacity cfg * 0.3) 1) 0 0 (IZR size) (IZR size)
  :: match fillPattern cfg with
     | PatDots =>
         forStep size 6 (fun x =>
           forStep size 6 (fun y => [FillArc ink (IZR x) (IZR y) 1]))
     | PatLines =>
         forStep size 4 (fun y => [StrokeLine ink 1 0 (IZR y) (IZR size) (IZR y)])
     | PatCrosshatch =>
         forStep size 4 (fun i =>
           [StrokeLine ink 1 0 (IZR i) (IZR size) (IZR i);
            StrokeLine ink 1 (IZR i) 0 (IZR i) (IZR size)])
     | PatStipple =>
         forUpTo 40 (fun i =>
           let x := random env (rng + 2 * i) * IZR size in
           let y := random env (rng + 2 * i + 1) * IZR size in
           [FillArc ink x y 0.5])
     | Solid => []
     end.

Definition createPatternCanvas (env : Browser) (cfg : Config) (rng : nat) (color : Color)
    : Canvas :=
  paintAll env (patternPaints env cfg rng color) blankTile.

(** ** Flood fill engine ([floodFill]) *)

(** [a === b] between two typed-array reads. *)
Definition sameRead (a b : option Z) : bool :=
  match a, b with
  | Some u, Some v => (u =? v)%Z
  | None, None => true
  | _, _ => false
  end.

(** [a === n] between a typed-array read and a number. *)
Definition readIs (a : option Z) (n : Z) : bool :=
  match a with
  | Some u => (u =? n)%Z
  | None => false
  end.

(** [if (visited[currentPos])] *)
Definition truthy (a : option Z) : bool :=
  match a with
  | Some u => negb (u =? 0)%Z
  | None => false
  end.

(** The values [floodFill] fixes before its loop. *)
Record FillJob := mkFillJob {
  jobWidth : Z;
  jobHeight : Z;
  startR : option Z;
  startG : option Z;
  startB : option Z;
  startA : option Z;
  fillR : Z;
  fillG : Z;
  fillB : Z;
  fillA : Z;
  patternCanvas : option Canvas   (* [null] for a solid fill *)
}.

(** What the loop mutates.  [pixelsToCheck] is held newest first: the JS
    array [[..., a, b]] is the list [b :: a :: ...], so [pop] takes the head
    and [push(a, b)] conses [a] then [b]. *)
Record FillLoop := mkFillLoop {
  pixels : list Z;
  visited : list Z;
  pixelsToCheck : list Z
}.

(** One round of [while (pixelsToCheck.length > 0)]. *)
Definition floodStep (cfg : Config) (job : FillJob) (st : FillLoop) : FillLoop :=
  match pixelsToCheck st with
  | y :: x :: rest =>
      if ((x <? 0) || (x >=? jobWidth job) || (y <? 0) || (y >=? jobHeight job))%Z
      then mkFillLoop (pixels st) (visited st) rest
      else
        let currentPos := (y * jobWidth job + x)%Z in
        if truthy (jsGet (visited st) currentPos)
        then mkFillLoop (pixels st) (visited st) rest
        else
          let visited' := <[Z.to_nat currentPos := 1%Z]> (visited st) in
          let pixelPos := (currentPos * 4)%Z in
          if sameRead (jsGet (pixels st) pixelPos) (startR job)
             && sameRead (jsGet (pixels st) (pixelPos + 1)) (startG job)
             && sameRead (jsGet (pixels st) (pixelPos + 2)) (startB job)
             && sameRead (jsGet (pixels st) (pixelPos + 3)) (startA job)
          then
            let write (c0 c1 c2 c3 : Z) :=
              jsSet (jsSet (jsSet (jsSet (pixels st) pixelPos c0)
                                  (pixelPos + 1) c1) (pixelPos + 2) c2) (pixelPos + 3) c3 in
            let pixels' :=
              match fillPattern cfg, patternCanvas job with
              | Solid, _ => write (fillR job) (fillG job) (fillB job) (fillA job)
              | _, Some pc =>
                  (* patternData = getImageData(x % w, y % h, 1, 1).data *)
                  let patternData :=
                    channelAt pc (Z.rem x (width pc)) (Z.rem y (height pc)) in
                  write (patternData 0%Z) (patternData 1%Z) (patternData 2%Z) (patternData 3%Z)
              | _, None => pixels st
              end in
            mkFillLoop pixels' visited'
              ((y - 1) :: x :: (y + 1) :: x :: y :: (x - 1) :: y :: (x + 1) :: rest)%Z
          else mkFillLoop (pixels st) visited' rest
  | _ =>
      (* a lone coordinate cannot arise: pushes and pops go by pairs *)
      mkFillLoop (pixels st) (visited st) []
  end.

(** The loop, with a bound on its rounds. *)
Fixpoint floodLoop (fuel : nat) (cfg : Config) (job : FillJob) (st : FillLoop) : FillLoop :=
  match fuel with
  | O => st
  | S fuel' =>
      match pixelsToCheck st with
      | [] => st
      | _ => floodLoop fuel' cfg job (floodStep cfg job st)
      end
  end.

(** The seed enters the worklist once and every pixel is marked at most
    once, pushing four neighbours: [4 * width * height + 1] rounds empty the
    worklist (lemma [floodFillRun_completes]). *)
Definition floodFuel (w h : Z) : nat := S (Z.to_nat (4 * w * h)).

(** The guard "Don't fill if the color is the same" (line 421). *)
Definition sameAsFill (cfg : Config) (c : Canvas) (startX startY : R) (fillColor : Color)
    : bool :=
  let startPos := ((Zfloor startY * width c + Zfloor startX) * 4)%Z in
  readIs (jsGet (data c) startPos) (red fillColor)
  && readIs (jsGet (data c) (startPos + 1)) (green fillColor)
  && readIs (jsGet (data c) (startPos + 2)) (blue fillColor)
  && readIs (jsGet (data c) (startPos + 3)) (Zfloor (opacity cfg * 255)).

(** The loop constants and the loop's last state, for a fill that passes
    the guard. *)
Definition fillJobOf (env : Browser) (cfg : Config) (rng : nat) (c : Canvas)
    (startX startY : R) (fillColor : Color) : FillJob :=
  let startPos := ((Zfloor startY * width c + Zfloor startX) * 4)%Z in
  mkFillJob (width c) (height c)
    (jsGet (data c) startPos) (jsGet (data c) (startPos + 1))
    (jsGet (data c) (startPos + 2)) (jsGet (data c) (startPos + 3))
    (red fillColor) (green fillColor) (blue fillColor) (Zfloor (opacity cfg * 255))
    match fillPattern cfg with
    | Solid => None
    | _ => Some (createPatternCanvas env cfg rng fillColor)
    end.

Definition floodFillRun (env : Browser) (cfg : Config) (rng : nat) (c : Canvas)
    (startX startY : R) (fillColor : Color) : FillLoop :=
  let visited := repeat 0%Z (Z.to_nat (width c * height c)) in
  floodLoop (floodFuel (width c) (height c)) cfg
    (fillJobOf env cfg rng c startX startY fillColor)
    (mkFillLoop (data c) visited [Zfloor startY; Zfloor startX]).

(** [floodFill(ctx, startX, startY, fillColor)]: the canvas after the call.
    The whole raster is read once ([getImageData(0, 0, width, height)]),
    worked on in memory and written back once ([putImageData(.., 0, 0)]). *)
Definition floodFill (env : Browser) (cfg : Config) (rng : nat) (c : Canvas)
    (startX startY : R) (fillColor : Color) : Canvas :=
  if sameAsFill cfg c startX startY fillColor then c
  else
    mkCanvas (width c) (height c)
      (pixels (floodFillRun env cfg rng c startX startY fillColor)).

(** How many [Math.random()] values the call draws (the stipple tile). *)
Definition floodFillDraws (cfg : Config) (c : Canvas) (startX startY : R)
    (fillColor : Color) : nat :=
  if sameAsFill cfg c startX startY fillColor then 0%nat
  else match fillPattern cfg with PatStipple => 80%nat | _ => 0%nat end.

(** ** Symmetry transform ([applySymmetry]) *)

(** The reflection computed inline in [applySymmetry] (lines 152-167) and,
    with the same text, for the previous position in the two closures of
    [draw] (lines 759-769 and 803-814).  The formula is taken over the
    reals, with the exact pi: the code evaluates it in doubles with
    [Math.PI], so what it returns agrees with [mirrorPoint] up to rounding
    only, and a [Math.floor] or a threshold applied to a reflected
    coordinate can fall on the other side. *)
Definition mirrorPoint (angle centerX centerY x y : R) : Point :=
  let angleRad := angle * PI / 180 in
  let relX := x - centerX in
  let relY := y - centerY in
  let cos2a := cos (2 * angleRad) in
  let sin2a := sin (2 * angleRad) in
  let mirrorX := relX * cos2a + relY * sin2a in
  let mirrorY := relX * sin2a - relY * cos2a in
  (mirrorX + centerX, mirrorY + centerY).

(** [applySymmetry(ctx, x, y, drawFunction)]: [w] and [h] are
    [ctx.canvas.width] and [ctx.canvas.height]; the callback acts on the
    state [S] it closes over. *)
Definition applySymmetry {S : Type} (cfg : Config) (w h : Z) (x y : R)
    (drawFunction : R -> R -> S -> S) (s : S) : S :=
  let centerX := IZR w / 2 in
  let centerY := IZR h / 2 in
  match symmetryMode cfg with
  | SymNone => drawFunction x y s
  | SymMirror =>
      let s1 := drawFunction x y s in
      let final := mirrorPoint (mirrorAngle cfg) centerX centerY x y in
      drawFunction (fst final) (snd final) s1
  end.

(** ** The component's mutable state and its pointer handlers *)

(** Refs and React state the handlers write.  [strokeTrace] is a ghost
    record of the calls made to [drawBrushStroke]: the value of
    [lastPosRef.current] the call found and the point it was asked to reach. *)
Record App := mkApp {
  canvas : Canvas;
  hist : Hist Canvas;
  lastPos : Point;
  bleedState : Bleed;
  isDrawing : bool;
  isHolding : bool;
  rngPos : nat;
  strokeTrace : list (Point * Point)
}.

Definition withCanvas (c : Canvas) (rng : nat) (a : App) : App :=
  mkApp c (hist a) (lastPos a) (bleedState a) (isDrawing a) (isHolding a) rng
        (strokeTrace a).

Definition withHist (h : Hist Canvas) (a : App) : App :=
  mkApp (canvas a) h (lastPos a) (bleedState a) (isDrawing a) (isHolding a)
        (rngPos a) (strokeTrace a).

Definition withLastPos (p : Point) (a : App) : App :=
  mkApp (canvas a) (hist a) p (bleedState a) (isDrawing a) (isHolding a)
        (rngPos a) (strokeTrace a).

Definition withBleed (b : Bleed) (a : App) : App :=
  mkApp (canvas a) (hist a) (lastPos a) b (isDrawing a) (isHolding a)
        (rngPos a) (strokeTrace a).

Definition withFlags (drawing holding : bool) (a : App) : App :=
  mkApp (canvas a) (hist a) (lastPos a) (bleedState a) drawing holding
        (rngPos a) (strokeTrace a).

(** [saveToHistory()] as the handlers call it: the mounted canvas is
    encoded and pushed. *)
Definition commit (a : App) : App :=
  withHist (saveToHistory (Some (canvas a)) (hist a)) a.

(** [drawBrushStroke(ctx, x, y)] as an effect: it reads
    [lastPosRef.current], lays its ink and leaves [lastPosRef] alone
    ("lastPos is managed by the caller"). *)
Definition drawBrushStroke (env : Browser) (cfg : Config) (x y : R) (a : App) : App :=
  let ps := brushStrokePaints env cfg (rngPos a) (lastPos a) x y in
  mkApp (paintAll env ps (canvas a)) (hist a) (lastPos a) (bleedState a)
        (isDrawing a) (isHolding a)
        (rngPos a + brushStrokeDraws cfg (lastPos a) x y)
        (strokeTrace a ++ [(lastPos a, (x, y))]).

(** [const isMirror = Math.abs(relX - origRelX) > 1 || Math.abs(relY - origRelY) > 1] *)
Definition isMirror (centerX centerY x y sx sy : R) : bool :=
  let relX := sx - centerX in
  let relY := sy - centerY in
  let origRelX := x - centerX in
  let origRelY := y - centerY in
  (if Rlt_dec 1 (Rabs (relX - origRelX)) then true else false)
  || (if Rlt_dec 1 (Rabs (relY - origRelY)) then true else false).

(** The previous position a symmetry instance works from (lines 741-771
    and 789-816): the shared one, or its reflection when the instance is
    taken for the mirrored one. *)
Definition branchLastPos (cfg : Config) (w h : Z) (x y sx sy : R) (origLast : Point)
    : Point :=
  let centerX := IZR w / 2 in
  let centerY := IZR h / 2 in
  match symmetryMode cfg with
  | SymMirror =>
      if isMirror centerX centerY x y sx sy
      then mirrorPoint (mirrorAngle cfg) centerX centerY (fst origLast) (snd origLast)
      else origLast
  | SymNone => origLast
  end.

(** The callback [draw] hands to [applySymmetry] on the brush path
    (lines 780-827); [(x, y)] is the event point it closes over. *)
Definition brushBranch (env : Browser) (cfg : Config) (x y sx sy : R) (a : App) : App :=
  let origLast := lastPos a in
  let lastS := branchLastPos cfg (width (canvas a)) (height (canvas a)) x y sx sy origLast in
  let a1 := withLastPos lastS a in            (* tempLastPos *)
  let a2 := drawBrushStroke env cfg sx sy a1 in
  withLastPos origLast a2.                    (* restore *)

(** The callback of the blend path (lines 736-774). *)
Definition blendBranch (env : Browser) (cfg : Config) (x y sx sy : R) (a : App) : App :=
  let lastS := branchLastPos cfg (width (canvas a)) (height (canvas a)) x y sx sy (lastPos a) in
  withCanvas (fst (drawBlend env cfg (canvas a) sx sy (fst lastS) (snd lastS))) (rngPos a) a.

(** [startDrawing(e)], with [(x, y)] the event point relative to the canvas. *)
Definition startDrawing (env : Browser) (cfg : Config) (x y : R) (a : App) : App :=
  if isDraggingPanel cfg then a
  else if fillMode cfg then
    commit
      (applySymmetry cfg (width (canvas a)) (height (canvas a)) x y
         (fun sx sy a' =>
            withCanvas (floodFill env cfg (rngPos a') (canvas a') sx sy (selectedColor cfg))
                       (rngPos a' + floodFillDraws cfg (canvas a') sx sy (selectedColor cfg))
                       a')
         a)
  else if bleedEnabled cfg then
    withLastPos (x, y)
      (withFlags true true (withBleed (mkBleed x y 0 (brushSize cfg * 4)) a))
  else
    match shapeMode cfg with
    | Some shape =>
        commit
          (applySymmetry cfg (width (canvas a)) (height (canvas a)) x y
             (fun sx sy a' =>
                withCanvas (paintAll env (drawShape cfg sx sy shape) (canvas a')) (rngPos a') a')
             a)
    | None => withLastPos (x, y) (withFlags true (isHolding a) a)
    end.

(** [draw(e)], the pointer-move handler. *)
Definition draw (env : Browser) (cfg : Config) (x y : R) (a : App) : App :=
  if (negb (isDrawing a) && negb (isHolding a))
     || (match shapeMode cfg with Some _ => true | None => false end)
  then a
  else if bleedEnabled cfg && isHolding a then
    let dx := x - fst (lastPos a) in
    let dy := y - snd (lastPos a) in
    let distance := distanceOf dx dy in
    let b := bleedState a in
    let b' := if Rlt_dec 5 distance
              then mkBleed x y (Rmax 0 (radius b * 0.7)) (maxRadius b)
              else b in
    withLastPos (x, y) (withBleed b' a)
  else if blendMode cfg then
    withLastPos (x, y)
      (applySymmetry cfg (width (canvas a)) (height (canvas a)) x y
         (blendBranch env cfg x y) a)
  else
    withLastPos (x, y)
      (applySymmetry cfg (width (canvas a)) (height (canvas a)) x y
         (brushBranch env cfg x y) a).

(** [stopDrawing()] *)
Definition stopDrawing (a : App) : App :=
  withFlags false false (if isDrawing a || isHolding a then commit a else a).

(** One run of the frame callback [animate].  The callback works on the
    object [state] that the effect read from [bleedStateRef.current] when
    it ran (line 185).  The model keeps one bleed object, [bleedState]:
    that is the object of the callback for every hold that starts from
    [isHolding = false], where [setIsHolding(true)] re-runs the effect
    after [startDrawing] has installed its new object (line 681).  A
    pointer-down that finds [isHolding] already true installs a new object
    without re-running the effect, and the frames then go on with the
    former one: such runs are outside of what [animate] describes. *)
Definition animate (env : Browser) (cfg : Config) (a : App) : App :=
  if negb (isHolding a) || negb (bleedEnabled cfg) then a
  else
    let st := growRadius (bleedState a) in
    withCanvas (paintAll env (bleedPaints env cfg (rngPos a) st) (canvas a))
               (rngPos a + bleedDraws cfg st)
               (withBleed st a).

(** [k] frames in a row with no pointer event in between. *)
Fixpoint animateTimes (env : Browser) (cfg : Config) (k : nat) (a : App) : App :=
  match k with
  | O => a
  | S k' => animateTimes env cfg k' (animate env cfg a)
  end.

(** [clearCanvas()]: the canvas is painted with the background colour
    ['#0a0a0a'] and the history restarts from that canvas. *)
Definition clearCanvas (env : Browser) (a : App) : App :=
  let c := canvas a in
  let cleared :=
    paint env (FillRect (mkInk (mkColor 10 10 10) 1 1) 0 0 (IZR (width c)) (IZR (height c))) c in
  withHist (clearHistory cleared (hist a)) (withCanvas cleared (rngPos a) a).

(** ** The control panel's [onClick] and [onChange] handlers *)

(** One constructor per handler of the panel that writes the
    configuration (lines 1173-1178, 1207-1211, 1250-1254, 1298, 1329, 1385,
    1425, 1471-1475, 1519, 1546, 1573, 1602). *)
Inductive PanelAction :=
| PickBrush (m : BrushMode)
| ToggleBlend
| ToggleFill
| PickFillPattern (f : FillPattern)
| ToggleBleed
| PickSymmetry (m : SymmetryMode)
| SlideMirrorAngle (v : R)
| PickShape (sh : Shape)
| SlideBrushSize (v : R)
| SlideLineWeight (v : R)
| SlideOpacity (v : R)
| PickColor (k : Color).

(** What the handler leaves in the React state; the setters of one handler
    read the state of the render they were created in. *)
Definition panelStep (cfg : Config) (act : PanelAction) : Config :=
  match act with
  | PickBrush m =>
      (* setBrushMode(mode.id); setShapeMode(null); setBlendMode(false); setFillMode(false) *)
      mkConfig (selectedColor cfg) (brushSize cfg) m (opacity cfg) (lineWeight cfg)
               None (bleedEnabled cfg) false false (fillPattern cfg)
               (symmetryMode cfg) (mirrorAngle cfg) (isDraggingPanel cfg)
  | ToggleBlend =>
      (* setBlendMode(!blendMode); setShapeMode(null); if (!blendMode) setFillMode(false) *)
      mkConfig (selectedColor cfg) (brushSize cfg) (brushMode cfg) (opacity cfg) (lineWeight cfg)
               None (bleedEnabled cfg) (negb (blendMode cfg))
               (if negb (blendMode cfg) then false else fillMode cfg) (fillPattern cfg)
               (symmetryMode cfg) (mirrorAngle cfg) (isDraggingPanel cfg)
  | ToggleFill =>
      (* setFillMode(!fillMode); setShapeMode(null); if (!fillMode) setBlendMode(false) *)
      mkConfig (selectedColor cfg) (brushSize cfg) (brushMode cfg) (opacity cfg) (lineWeight cfg)
               None (bleedEnabled cfg)
               (if negb (fillMode cfg) then false else blendMode cfg)
               (negb (fillMode cfg)) (fillPattern cfg)
               (symmetryMode cfg) (mirrorAngle cfg) (isDraggingPanel cfg)
  | PickFillPattern f =>
      mkConfig (selectedColor cfg) (brushSize cfg) (brushMode cfg) (opacity cfg) (lineWeight cfg)
               (shapeMode cfg) (bleedEnabled cfg) (blendMode cfg) (fillMode cfg) f
               (symmetryMode cfg) (mirrorAngle cfg) (isDraggingPanel cfg)
  | ToggleBleed =>
      mkConfig (selectedColor cfg) (brushSize cfg) (brushMode cfg) (opacity cfg) (lineWeight cfg)
               (shapeMode cfg) (negb (bleedEnabled cfg)) (blendMode cfg) (fillMode cfg)
               (fillPattern cfg) (symmetryMode cfg) (mirrorAngle cfg) (isDraggingPanel cfg)
  | PickSymmetry m =>
      mkConfig (selectedColor cfg) (brushSize cfg) (brushMode cfg) (opacity cfg) (lineWeight cfg)
               (shapeMode cfg) (bleedEnabled cfg) (blendMode cfg) (fillMode cfg)
               (fillPattern cfg) m (mirrorAngle cfg) (isDraggingPanel cfg)
  | SlideMirrorAngle v =>
      mkConfig (selectedColor cfg) (brushSize cfg) (brushMode cfg) (opacity cfg) (lineWeight cfg)
               (shapeMode cfg) (bleedEnabled cfg) (blendMode cfg) (fillMode cfg)
               (fillPattern cfg) (symmetryMode cfg) v (isDraggingPanel cfg)
  | PickShape sh =>
      (* setShapeMode(shape.id); setBlendMode(false); setFillMode(false) *)
      mkConfig (selectedColor cfg) (brushSize cfg) (brushMode cfg) (opacity cfg) (lineWeight cfg)
               (Some sh) (bleedEnabled cfg) false false (fillPattern cfg)
               (symmetryMode cfg) (mirrorAngle cfg) (isDraggingPanel cfg)
  | SlideBrushSize v =>
      mkConfig (selectedColor cfg) v (brushMode cfg) (opacity cfg) (lineWeight cfg)
               (shapeMode cfg) (bleedEnabled cfg) (blendMode cfg) (fillMode cfg)
               (fillPattern cfg) (symmetryMode cfg) (mirrorAngle cfg) (isDraggingPanel cfg)
  | SlideLineWeight v =>
      mkConfig (selectedColor cfg) (brushSize cfg) (brushMode cfg) (opacity cfg) v
               (shapeMode cfg) (bleedEnabled cfg) (blendMode cfg) (fillMode cfg)
               (fillPattern cfg) (symmetryMode cfg) (mirrorAngle cfg) (isDraggingPanel cfg)
  | SlideOpacity v =>
      mkConfig (selectedColor cfg) (brushSize cfg) (brushMode cfg) v (lineWeight cfg)
               (shapeMode cfg) (bleedEnabled cfg) (blendMode cfg) (fillMode cfg)
               (fillPattern cfg) (symmetryMode cfg) (mirrorAngle cfg) (isDraggingPanel cfg)
  | PickColor k =>
      mkConfig k (brushSize cfg) (brushMode cfg) (opacity cfg) (lineWeight cfg)
               (shapeMode cfg) (bleedEnabled cfg) (blendMode cfg) (fillMode cfg)
               (fillPattern cfg) (symmetryMode cfg) (mirrorAngle cfg) (isDraggingPanel cfg)
  end.

Definition panelRun (acts : list PanelAction) (cfg : Config) : Config :=
  fold_left panelStep acts cfg.

(* ===================================================================== *)
(** * Part II.  Vocabulary and concrete inputs                            *)
(* ===================================================================== *)

(** A browser whose drawing calls leave the raster as it is and whose
    [Math.random()] is stuck at 0: enough for runs where only the control
    flow and the direct pixel writes matter. *)
Definition idleBrowser : Browser := mkBrowser (fun _ c => data c) (fun _ => 0).

(** Palette entries ['#6bb5c7'] (Cyan Glow) and ['#0a0a0a'] (Background). *)
Definition cyanGlow : Color := mkColor 107 181 199.
Definition backgroundColor : Color := mkColor 10 10 10.

(** The [useState] defaults of the component. *)
Definition defaultConfig : Config :=
  mkConfig cyanGlow 40 Segments 0.7 1 None false false false Solid SymNone 90 false.

(** A canvas whose every pixel is [(r, g, b, al)]. *)
Definition solidCanvas (w h r g b al : Z) : Canvas :=
  mkCanvas w h (flat_map (fun _ => [r; g; b; al]) (seq 0 (Z.to_nat (w * h)))).

(** The component right after mounting on canvas [c]. *)
Definition mountedApp (c : Canvas) : App :=
  mkApp c (initHist c) (0, 0) (mkBleed 0 0 0 0) false false 0 [].

(** The same in the middle of a stroke whose last point is [p]. *)
Definition strokingApp (c : Canvas) (p : Point) : App :=
  mkApp c (initHist c) p (mkBleed 0 0 0 0) true false 0 [].

(** Fine-line brush with a vertical mirror axis. *)
Definition mirrorFineConfig : Config :=
  mkConfig cyanGlow 40 Fine 0.7 1 None false false false Solid SymMirror 90 false.

(** Fill mode with the solid pattern, and with the dots pattern. *)
Definition fillConfig : Config :=
  mkConfig cyanGlow 40 Segments 0.7 1 None false false true Solid SymNone 90 false.

Definition dotsFillConfig : Config :=
  mkConfig cyanGlow 40 Segments 0.7 1 None false false true PatDots SymNone 90 false.

(** Fill mode under a vertical mirror axis. *)
Definition mirrorFillConfig : Config :=
  mkConfig cyanGlow 40 Segments 0.7 1 None false false true Solid SymMirror 90 false.

(** A 4 x 1 canvas: three background pixels, then one that already is
    cyan at alpha 178. *)
Definition filledEndCanvas : Canvas :=
  mkCanvas 4 1 [10; 10; 10; 255;  10; 10; 10; 255;  10; 10; 10; 255;
                107; 181; 199; 178]%Z.

(** A 3 x 1 canvas: background, a white pixel, background. *)
Definition stripeCanvas : Canvas :=
  mkCanvas 3 1 [10; 10; 10; 255;  255; 255; 255; 255;  10; 10; 10; 255]%Z.

(** The history invariant: between one and [maxUndoSteps] snapshots, and
    the [canUndo] flag in step with the count. *)
Definition histInv {Snap : Type} (h : Hist Snap) : Prop :=
  (1 <= length (undoHistory h) <= maxUndoSteps)%nat /\
  canUndo h = (1 <? length (undoHistory h))%nat.

(** What holds from the pointer-down of a bleed on, as long as the pointer
    stays at [(x, y)]. *)
Definition holding (cfg : Config) (x y : R) (a : App) : Prop :=
  isHolding a = true /\ lastPos a = (x, y) /\
  maxRadius (bleedState a) = brushSize cfg * 4 /\
  radius (bleedState a) <= maxRadius (bleedState a).

(** What can happen while the pointer is held still at [(x, y)]: an
    animation frame, or a move event that reports the same point again. *)
Inductive HoldEvent := Frame | StillMove.

Definition holdStep (env : Browser) (cfg : Config) (x y : R) (a : App) (ev : HoldEvent)
    : App :=
  match ev with
  | Frame => animate env cfg a
  | StillMove => draw env cfg x y a
  end.

Definition holdRun (env : Browser) (cfg : Config) (x y : R) (evs : list HoldEvent)
    (a : App) : App :=
  fold_left (holdStep env cfg x y) evs a.

(** Bleed switched on (segments brush, no stamp). *)
Definition bleedConfig : Config :=
  mkConfig cyanGlow 40 Segments 0.7 1 None true false false Solid SymNone 90 false.

(** The radius and the style alpha of a stroked arc. *)
Definition arcRadius (p : Paint) : R :=
  match p with StrokeArc _ _ _ _ r _ _ => r | _ => 0 end.

Definition strokeAlpha (p : Paint) : R :=
  match p with
  | StrokeArc ink _ _ _ _ _ _ | StrokeLine ink _ _ _ _ _ => inkAlpha ink
  | _ => 0
  end.

(** The size of the rectangle [drawBlend] samples: [sourceWidth] and
    [sourceHeight] as lines 364-367 compute them, from the corner clamped
    to 0. *)
Definition blendSourceWidth (cfg : Config) (c : Canvas) (lastX : R) : Z :=
  let blendRadius := brushSize cfg * 0.5 in
  let sourceX := Z.max 0 (Zfloor (lastX - blendRadius)) in
  Z.min (width c - sourceX) (Zceil (blendRadius * 2)).

Definition blendSourceHeight (cfg : Config) (c : Canvas) (lastY : R) : Z :=
  let blendRadius := brushSize cfg * 0.5 in
  let sourceY := Z.max 0 (Zfloor (lastY - blendRadius)) in
  Z.min (height c - sourceY) (Zceil (blendRadius * 2)).

(** Blend mode under a mirror axis at 45 degrees. *)
Definition mirrorBlendConfig : Config :=
  mkConfig cyanGlow 40 Segments 0.7 1 None false true false Solid SymMirror 45 false.

(** The sample rectangle as the specification words it: "a square region
    of the raster centered on the previous point (radius = brushSize*0.5,
    clipped to canvas bounds)".  Along one axis the square starts at pixel
    [floor(last - blendRadius)] and is [ceil(blendRadius * 2)] pixels long;
    clipping keeps what lies in [0, bound).  [clippedExtent] is the extent
    of what is kept, zero or negative when nothing is. *)
Definition clippedExtent (corner size bound : Z) : Z :=
  (Z.min bound (corner + size) - Z.max 0 corner)%Z.

Definition specClippedWidth (cfg : Config) (c : Canvas) (lastX : R) : Z :=
  clippedExtent (Zfloor (lastX - brushSize cfg * 0.5)) (Zceil (brushSize cfg * 0.5 * 2))
                (width c).

Definition specClippedHeight (cfg : Config) (c : Canvas) (lastY : R) : Z :=
  clippedExtent (Zfloor (lastY - brushSize cfg * 0.5)) (Zceil (brushSize cfg * 0.5 * 2))
                (height c).

(** The length of the segment a brush stroke covers. *)
Definition segmentLength (last : Point) (x y : R) : R :=
  distanceOf (x - fst last) (y - snd last).

(** Primitives one sample of a distance-parameterised brush emits. *)
Definition perSample (m : BrushMode) : nat :=
  match m with
  | Dots => 1
  | Radials => 8
  | Crosshatch => 2
  | Stipple => 1
  | _ => 0
  end.

(** Samples a distance-parameterised brush places on a segment of length
    [d]: both ends of the [floor(d / spacing)] intervals for dots (3px),
    radials (20px) and crosshatch (15px), [floor(d * 0.5)] for stipple. *)
Definition sampleCount (m : BrushMode) (d : R) : Z :=
  match m with
  | Dots => Zfloor (d / 3) + 1
  | Radials => Zfloor (d / 20) + 1
  | Crosshatch => Zfloor (d / 15) + 1
  | Stipple => Zfloor (d * 0.5)
  | _ => 0
  end.

Definition distanceParameterised (m : BrushMode) : Prop :=
  m = Dots \/ m = Radials \/ m = Crosshatch \/ m = Stipple.

(** Dots brush, everything else at its default. *)
Definition dotsConfig : Config :=
  mkConfig cyanGlow 40 Dots 0.7 1 None false false false Solid SymNone 90 false.

(** *** Flood fill vocabulary *)

(** A pixel [(x, y)]. *)
Definition Pixel : Type := (Z * Z)%type.

Definition inCanvas (c : Canvas) (p : Pixel) : Prop :=
  (0 <= fst p < width c)%Z /\ (0 <= snd p < height c)%Z.

(** The raster a canvas of that size really has. *)
Definition wellFormed (c : Canvas) : Prop :=
  (0 <= width c)%Z /\ (0 <= height c)%Z /\
  Z.of_nat (length (data c)) = (4 * width c * height c)%Z.

(** The RGBA quadruple stored for a pixel in raster [d] of row length [w]. *)
Definition rgbaAt (d : list Z) (w : Z) (p : Pixel)
    : option Z * option Z * option Z * option Z :=
  let pos := ((snd p * w + fst p) * 4)%Z in
  (jsGet d pos, jsGet d (pos + 1)%Z, jsGet d (pos + 2)%Z, jsGet d (pos + 3)%Z).

Definition pixelOf (c : Canvas) (p : Pixel) := rgbaAt (data c) (width c) p.

(** The four neighbours of a pixel. *)
Definition adjacent (p q : Pixel) : Prop :=
  q = (fst p + 1, snd p)%Z \/ q = (fst p - 1, snd p)%Z \/
  q = (fst p, snd p + 1)%Z \/ q = (fst p, snd p - 1)%Z.

(** The maximal 4-connected region of the seed: what can be reached from it
    through neighbouring canvas pixels that all carry the seed's RGBA. *)
Inductive fillRegion (c : Canvas) (seed : Pixel) : Pixel -> Prop :=
| region_seed : inCanvas c seed -> fillRegion c seed seed
| region_grow p q :
    fillRegion c seed p -> adjacent p q -> inCanvas c q ->
    pixelOf c q = pixelOf c seed -> fillRegion c seed q.

(** What a fill writes at a pixel: the solid colour, or the pattern tile's
    pixel at [(x mod tileW, y mod tileH)], as the clamped array stores it. *)
Definition fillSource (cfg : Config) (job : FillJob) (p : Pixel)
    : option Z * option Z * option Z * option Z :=
  match fillPattern cfg, patternCanvas job with
  | Solid, _ =>
      (Some (clamp8 (fillR job)), Some (clamp8 (fillG job)),
       Some (clamp8 (fillB job)), Some (clamp8 (fillA job)))
  | _, Some pc =>
      let patternData := channelAt pc (Z.rem (fst p) (width pc)) (Z.rem (snd p) (height pc)) in
      (Some (clamp8 (patternData 0%Z)), Some (clamp8 (patternData 1%Z)),
       Some (clamp8 (patternData 2%Z)), Some (clamp8 (patternData 3%Z)))
  | _, None => (None, None, None, None)
  end.

(** The seed pixel of a call and the target a solid fill compares it with. *)
Definition seedOf (startX startY : R) : Pixel := (Zfloor startX, Zfloor startY).

Definition fillTarget (cfg : Config) (fillColor : Color)
    : option Z * option Z * option Z * option Z :=
  (Some (red fillColor), Some (green fillColor), Some (blue fillColor),
   Some (Zfloor (opacity cfg * 255))).

(** "The call changes exactly the seed's region": a canvas pixel differs
    after the call if and only if it belongs to the region. *)
Definition changesExactlyRegion (c c' : Canvas) (seed : Pixel) : Prop :=
  forall p, inCanvas c p -> (pixelOf c' p <> pixelOf c p <-> fillRegion c seed p).

(** A colour whose channels are bytes, as [hexToRgb] yields for ['#rrggbb']. *)
Definition byteColor (k : Color) : Prop :=
  (0 <= red k <= 255)%Z /\ (0 <= green k <= 255)%Z /\ (0 <= blue k <= 255)%Z.

(** Worklist entries as pixels: the flat list [y :: x :: ...] by pairs. *)
Fixpoint worklistPixels (l : list Z) : list Pixel :=
  match l with
  | y :: x :: rest => (x, y) :: worklistPixels rest
  | _ => []
  end.

(** Cells of the [visited] array still at 0. *)
Fixpoint countZeros (l : list Z) : nat :=
  match l with
  | [] => 0
  | v :: rest => ((if (v =? 0)%Z then 1 else 0) + countZeros rest)%nat
  end.

(** The rounds the loop can still make: four per unmarked pixel (the
    neighbours it may push) and one per pair waiting on the worklist. *)
Definition fillMeasure (st : FillLoop) : nat :=
  (4 * countZeros (visited st) + Nat.div2 (S (length (pixelsToCheck st))))%nat.

(** Row-major index of a pixel ([currentPos]). *)
Definition cellIndex (c : Canvas) (p : Pixel) : Z := (snd p * width c + fst p)%Z.

(** [visited[currentPos]] is set. *)
Definition marked (c : Canvas) (v : list Z) (p : Pixel) : bool :=
  truthy (jsGet v (cellIndex c p)).

(** The loop's test "pixel matches start color" on raster [d]. *)
Definition matchesStart (job : FillJob) (c : Canvas) (d : list Z) (p : Pixel) : bool :=
  let pixelPos := (cellIndex c p * 4)%Z in
  sameRead (jsGet d pixelPos) (startR job)
  && sameRead (jsGet d (pixelPos + 1)%Z) (startG job)
  && sameRead (jsGet d (pixelPos + 2)%Z) (startB job)
  && sameRead (jsGet d (pixelPos + 3)%Z) (startA job).

(** The loop invariant of [floodFill] on canvas [c] from [seed]. *)
Record fillInv (cfg : Config) (job : FillJob) (c : Canvas) (seed : Pixel)
    (st : FillLoop) : Prop := mkFillInv {
  inv_pixels_len : length (pixels st) = length (data c);
  inv_visited_len : Z.of_nat (length (visited st)) = (width c * height c)%Z;
  inv_pixels : forall p, inCanvas c p ->
    rgbaAt (pixels st) (width c) p =
    if marked c (visited st) p && matchesStart job c (data c) p
    then fillSource cfg job p else pixelOf c p;
  inv_sound : forall p, inCanvas c p ->
    marked c (visited st) p = true -> matchesStart job c (data c) p = true ->
    fillRegion c seed p;
  inv_work : forall q, q ∈ worklistPixels (pixelsToCheck st) ->
    inCanvas c q -> matchesStart job c (data c) q = true -> fillRegion c seed q;
  inv_closed : forall p q, inCanvas c p ->
    marked c (visited st) p = true -> matchesStart job c (data c) p = true ->
    adjacent p q -> inCanvas c q ->
    marked c (visited st) q = true \/ q ∈ worklistPixels (pixelsToCheck st);
  inv_seed : marked c (visited st) seed = true \/
             seed ∈ worklistPixels (pixelsToCheck st)
}.

(** *** Vocabulary of the further properties *)

(** At most one of the stamp, blend and fill modes is on. *)
Definition exclusiveModes (cfg : Config) : Prop :=
  match shapeMode cfg with
  | Some _ => blendMode cfg = false /\ fillMode cfg = false
  | None => blendMode cfg = false \/ fillMode cfg = false
  end.

(** What reaches the component between a pointer-down and the pointer-up:
    animation frames and pointer moves. *)
Inductive GestureEvent := Tick | MoveTo (x y : R).

Definition gestureStep (env : Browser) (cfg : Config) (a : App) (ev : GestureEvent) : App :=
  match ev with
  | Tick => animate env cfg a
  | MoveTo x y => draw env cfg x y a
  end.

Definition gestureRun (env : Browser) (cfg : Config) (evs : list GestureEvent) (a : App)
    : App :=
  fold_left (gestureStep env cfg) evs a.

(** The segments of the polyline that starts at [start] and goes through
    [pts] in order. *)
Fixpoint polyline (start : Point) (pts : list Point) : list (Point * Point) :=
  match pts with
  | [] => []
  | p :: rest => (start, p) :: polyline p rest
  end.

(** What a bleed keeps from its pointer-down on, wherever the pointer goes. *)
Definition bleeding (cfg : Config) (a : App) : Prop :=
  isHolding a = true /\
  maxRadius (bleedState a) = brushSize cfg * 4 /\
  0 <= radius (bleedState a) <= maxRadius (bleedState a).

(** Segments brush with the defaults, and a stamp configuration. *)
Definition radialStampConfig : Config :=
  mkConfig cyanGlow 40 Segments 0.7 1 (Some Radial) false false false Solid SymNone 90 false.

(** The end point of a stroked line, relative to its start. *)
Definition lineSpan (p : Paint) : R * R :=
  match p with
  | StrokeLine _ _ x1 y1 x2 y2 => (x2 - x1, y2 - y1)
  | _ => (0, 0)
  end.

Close Scope R_scope.

(* ===================================================================== *)
(** * Part III.  Proofs                                                   *)
(* ===================================================================== *)

Section HistoryProofs.
Context {Snap : Type}.
Implicit Types (h : Hist Snap) (s : Snap).

Lemma saveToHistory_length s h :
  length (undoHistory (saveToHistory (Some s) h)) =
  Nat.min (S (length (undoHistory h))) (Nat.max maxUndoSteps (length (undoHistory h))).
Proof.
  unfold saveToHistory; cbn [undoHistory].
  rewrite length_app; cbn [length].
  destruct (Nat.ltb_spec maxUndoSteps (length (undoHistory h) + 1)) as [Hlt|Hge].
  - destruct (undoHistory h ++ [s]) eqn:E.
    + apply (f_equal length) in E. rewrite length_app in E. cbn in E. lia.
    + apply (f_equal length) in E. rewrite length_app in E. cbn in E.
      cbn [tail length]. lia.
  - rewrite length_app. cbn [length]. lia.
Qed.

Lemma removelast_length_pred (l : list Snap) :
  length (removelast l) = Nat.pred (length l).
Proof.
  induction l as [|a [|b l] IH]; cbn [removelast length] in *; lia.
Qed.

Lemma undo_length h :
  length (undoHistory (fst (undo h))) =
  Nat.max (Nat.min 1 (length (undoHistory h))) (Nat.pred (length (undoHistory h))).
Proof.
  unfold undo.
  destruct (Nat.leb_spec (length (undoHistory h)) 1) as [Hle|Hgt]; cbn [fst undoHistory].
  - lia.
  - rewrite removelast_length_pred. lia.
Qed.

Lemma undoSucceeds_spec h :
  undoSucceeds h = (1 <? length (undoHistory h))%nat.
Proof.
  unfold undoSucceeds, undo.
  destruct (Nat.leb_spec (length (undoHistory h)) 1) as [Hle|Hgt]; cbn [snd].
  - symmetry. apply Nat.ltb_ge. lia.
  - assert (Hlen := removelast_length_pred (undoHistory h)).
    destruct (removelast (undoHistory h)) as [|a l] using rev_ind.
    + cbn in Hlen. lia.
    + rewrite last_snoc. symmetry. apply Nat.ltb_lt. lia.
Qed.

Lemma histInv_init (blank : Snap) : histInv (initHist blank).
Proof. split; unfold maxUndoSteps; cbn; [lia | reflexivity]. Qed.

Lemma histInv_step h op : histInv h -> histInv (histStep h op).
Proof.
  intros [Hlen Hflag]. destruct op as [s| |s]; cbn [histStep].
  - split.
    + rewrite saveToHistory_length. unfold maxUndoSteps in *. lia.
    + reflexivity.
  - split.
    + rewrite undo_length. lia.
    + unfold undo.
      destruct (Nat.leb_spec (length (undoHistory h)) 1); cbn [fst canUndo undoHistory];
        [assumption | reflexivity].
  - split; unfold maxUndoSteps; cbn; [lia | reflexivity].
Qed.

Lemma histInv_run ops h : histInv h -> histInv (histRun ops h).
Proof.
  unfold histRun. revert h.
  induction ops as [|op ops IH]; intros h Hh; cbn [fold_left]; auto using histInv_step.
Qed.

Lemma commits_length cs h :
  (length (undoHistory h) <= maxUndoSteps)%nat ->
  length (undoHistory (commits cs h)) =
  Nat.min (length cs + length (undoHistory h)) maxUndoSteps.
Proof.
  unfold commits, histRun. revert h.
  induction cs as [|c cs IH]; intros h Hh; cbn [map fold_left length].
  - lia.
  - rewrite IH; cbn [histStep]; rewrite saveToHistory_length; unfold maxUndoSteps in *; lia.
Qed.

Lemma undoTimes_length k h :
  (1 <= length (undoHistory h))%nat ->
  length (undoHistory (undoTimes k h)) = Nat.max 1 (length (undoHistory h) - k).
Proof.
  revert h. induction k as [|k IH]; intros h Hh; cbn [undoTimes].
  - lia.
  - rewrite IH; rewrite undo_length; lia.
Qed.

(** C3 (amended): whatever commits, undos and clears follow the baseline,
    the stack holds between 1 and 20 snapshots and [canUndo] is exactly
    "more than one snapshot"; after [n] commits on top of the baseline the
    first [min (n+1) 20 - 1] undos succeed and every later one is a no-op
    (19 of them after 25 commits). *)
Theorem history_bound_and_undo_budget :
  (forall (blank : Snap) (ops : list (HistOp Snap)),
     let h := histRun ops (initHist blank) in
     (1 <= length (undoHistory h) <= 20)%nat /\
     canUndo h = (1 <? length (undoHistory h))%nat) /\
  (forall (blank : Snap) (cs : list Snap) (j : nat),
     undoSucceeds (undoTimes j (commits cs (initHist blank))) =
     (j <? Nat.min (length cs + 1) 20 - 1)%nat) /\
  (forall (blank : Snap) (cs : list Snap) (j : nat),
     length cs = 25%nat ->
     undoSucceeds (undoTimes j (commits cs (initHist blank))) = (j <? 19)%nat).
Proof.
  assert (Hbudget : forall (blank : Snap) (cs : list Snap) (j : nat),
     undoSucceeds (undoTimes j (commits cs (initHist blank))) =
     (j <? Nat.min (length cs + 1) 20 - 1)%nat).
  { intros blank cs j.
    assert (Hinit : length (undoHistory (initHist blank)) = 1%nat) by reflexivity.
    assert (Hlen : length (undoHistory (commits cs (initHist blank))) =
                   Nat.min (length cs + 1) 20).
    { rewrite commits_length; rewrite Hinit; unfold maxUndoSteps; lia. }
    rewrite undoSucceeds_spec, undoTimes_length, Hlen by lia.
    destruct (Nat.ltb_spec j (Nat.min (length cs + 1) 20 - 1));
      [apply Nat.ltb_lt | apply Nat.ltb_ge]; lia. }
  split; [|split].
  - intros blank ops. exact (histInv_run ops _ (histInv_init blank)).
  - exact Hbudget.
  - intros blank cs j Hn. rewrite Hbudget, Hn. reflexivity.
Qed.

End HistoryProofs.

(** The 25-commit scenario of the specification, on concrete snapshots. *)
Lemma history_bound_and_undo_budget_witness :
  length (seq 1 25) = 25%nat /\
  undoSucceeds (undoTimes 18 (commits (seq 1 25) (initHist 0%nat))) = true /\
  undoSucceeds (undoTimes 19 (commits (seq 1 25) (initHist 0%nat))) = false.
Proof.
  split; [reflexivity|].
  destruct (history_bound_and_undo_budget (Snap:=nat)) as (_ & _ & H25).
  split; rewrite (H25 0%nat (seq 1 25) _ eq_refl); reflexivity.
Defined.

(** C3 as the specification words it: after [n] commits on top of the
    baseline exactly [min n 20 - 1] undos succeed.  One commit already
    refutes it: the stack then holds the baseline and the commit, so the
    first undo succeeds, while the formula allows none. *)
Lemma history_claimed_budget_fails :
  ~ (forall (cs : list nat) (j : nat),
       undoSucceeds (undoTimes j (commits cs (initHist 0%nat))) =
       (j <? Nat.min (length cs) 20 - 1)%nat).
Proof.
  intros H. specialize (H [1%nat] 0%nat). vm_compute in H. discriminate H.
Qed.

(** ** Symmetry transform *)

Section SymmetryProofs.
Open Scope R_scope.

Lemma double_angle_unit (t : R) : cos t * cos t + sin t * sin t = 1.
Proof.
  assert (H := sin2_cos2 t). unfold Rsqr in H. lra.
Qed.

(** C5: the reflection [applySymmetry] computes is an involution, for every
    point, axis angle and centre (over the reals; the JS doubles follow it
    up to rounding). *)
Theorem mirrorPoint_involutive (angle centerX centerY x y : R) :
  let p := mirrorPoint angle centerX centerY x y in
  mirrorPoint angle centerX centerY (fst p) (snd p) = (x, y).
Proof.
  unfold mirrorPoint; cbn [fst snd].
  set (c := cos (2 * (angle * PI / 180))).
  set (s := sin (2 * (angle * PI / 180))).
  assert (H : c * c + s * s = 1) by apply double_angle_unit.
  f_equal.
  - transitivity ((x - centerX) * (c * c + s * s) + centerX); [ring | rewrite H; ring].
  - transitivity ((y - centerY) * (c * c + s * s) + centerY); [ring | rewrite H; ring].
Qed.

(** In mirror mode [applySymmetry] runs the callback on the point and then
    on its reflection. *)
Lemma applySymmetry_mirror {S : Type} cfg w h x y (f : R -> R -> S -> S) (s : S) :
  symmetryMode cfg = SymMirror ->
  applySymmetry cfg w h x y f s =
  let q := mirrorPoint (mirrorAngle cfg) (IZR w / 2) (IZR h / 2) x y in
  f (fst q) (snd q) (f x y s).
Proof. intros H. unfold applySymmetry. rewrite H. reflexivity. Qed.

Lemma applySymmetry_none {S : Type} cfg w h x y (f : R -> R -> S -> S) (s : S) :
  symmetryMode cfg = SymNone ->
  applySymmetry cfg w h x y f s = f x y s.
Proof. intros H. unfold applySymmetry. rewrite H. reflexivity. Qed.

(** A vertical axis (90 degrees) maps [x] to [2 * centerX - x]. *)
Lemma mirrorPoint_vertical (centerX centerY x y : R) :
  mirrorPoint 90 centerX centerY x y = (2 * centerX - x, y).
Proof.
  unfold mirrorPoint.
  replace (2 * (90 * PI / 180)) with PI by field.
  rewrite cos_PI, sin_PI. f_equal; ring.
Qed.

(** What a branch leaves behind: the canvas size, the shared last
    position, and one more entry in the trace. *)
Lemma brushBranch_lastPos env cfg x y sx sy a :
  lastPos (brushBranch env cfg x y sx sy a) = lastPos a.
Proof. reflexivity. Qed.

Lemma paintAll_nil env c : paintAll env [] c = c.
Proof. reflexivity. Qed.

Lemma brushBranch_trace env cfg x y sx sy a :
  strokeTrace (brushBranch env cfg x y sx sy a) =
  strokeTrace a ++
    [(branchLastPos cfg (width (canvas a)) (height (canvas a)) x y sx sy (lastPos a),
      (sx, sy))].
Proof. reflexivity. Qed.

Lemma paintAll_size env ps c :
  width (paintAll env ps c) = width c /\ height (paintAll env ps c) = height c.
Proof.
  unfold paintAll. revert c.
  induction ps as [|p ps IH]; intros c; cbn [fold_left]; [auto|].
  destruct (IH (paint env p c)) as [Hw Hh]. rewrite Hw, Hh. auto.
Qed.

Lemma brushBranch_size env cfg x y sx sy a :
  width (canvas (brushBranch env cfg x y sx sy a)) = width (canvas a) /\
  height (canvas (brushBranch env cfg x y sx sy a)) = height (canvas a).
Proof. cbn. apply paintAll_size. Qed.

Lemma isMirror_same cx cy x y : isMirror cx cy x y x y = false.
Proof.
  unfold isMirror.
  replace (x - cx - (x - cx)) with 0 by ring.
  replace (y - cy - (y - cy)) with 0 by ring.
  rewrite Rabs_R0.
  destruct (Rlt_dec 1 0); [lra | reflexivity].
Qed.

Lemma branchLastPos_original cfg w h x y last :
  branchLastPos cfg w h x y x y last = last.
Proof.
  unfold branchLastPos. destruct (symmetryMode cfg); [reflexivity|].
  rewrite isMirror_same. reflexivity.
Qed.

(** The two calls [draw] makes to [drawBrushStroke] under mirror symmetry:
    the real instance from the shared last position, the mirrored instance
    from whatever [branchLastPos] decides. *)
Lemma draw_mirror_trace env cfg x y a :
  isDrawing a || isHolding a = true ->
  shapeMode cfg = None ->
  bleedEnabled cfg && isHolding a = false ->
  blendMode cfg = false ->
  symmetryMode cfg = SymMirror ->
  let w := width (canvas a) in
  let h := height (canvas a) in
  let q := mirrorPoint (mirrorAngle cfg) (IZR w / 2) (IZR h / 2) x y in
  strokeTrace (draw env cfg x y a) =
  strokeTrace a ++
    [(lastPos a, (x, y));
     (branchLastPos cfg w h x y (fst q) (snd q) (lastPos a), (fst q, snd q))].
Proof.
  intros Hactive Hshape Hbleed Hblend Hsym w h q.
  assert (Hdraw : draw env cfg x y a =
    withLastPos (x, y)
      (applySymmetry cfg w h x y (brushBranch env cfg x y) a)).
  { unfold draw. rewrite Hshape, Hbleed, Hblend.
    destruct (isDrawing a), (isHolding a); cbn in Hactive |- *;
      try discriminate; reflexivity. }
  rewrite Hdraw, applySymmetry_mirror by assumption.
  cbn [withLastPos strokeTrace]. fold q.
  rewrite brushBranch_trace, brushBranch_trace, brushBranch_lastPos.
  destruct (brushBranch_size env cfg x y x y a) as [Hw Hh]. rewrite Hw, Hh.
  rewrite branchLastPos_original. fold w h.
  rewrite <- app_assoc. reflexivity.
Qed.

(** C4, the defect: canvas 800 x 600, vertical mirror axis, fine brush,
    last position (300, 300), pointer moved to (400.2, 300).  The mirrored
    instance reaches for (399.8, 300), which lies within one pixel of the
    real point, so it is not recognised as the mirror and starts from the
    unreflected (300, 300) instead of the reflection (500, 300). *)
Theorem mirror_branch_near_axis_unreflected env :
  let a := strokingApp (solidCanvas 800 600 10 10 10 255) (300, 300) in
  strokeTrace (draw env mirrorFineConfig 400.2 300 a) =
    [((300, 300), (400.2, 300));
     ((300, 300), (2 * (800 / 2) - 400.2, 300))] /\
  2 * (800 / 2) - 400.2 = 399.8 /\
  mirrorPoint (mirrorAngle mirrorFineConfig) (800 / 2) (600 / 2) 300 300 = (500, 300) /\
  (300, 300) <> mirrorPoint (mirrorAngle mirrorFineConfig) (800 / 2) (600 / 2) 300 300.
Proof.
  intros a.
  assert (Hlast : mirrorPoint (mirrorAngle mirrorFineConfig) (800 / 2) (600 / 2) 300 300
                  = (500, 300)).
  { cbn [mirrorAngle mirrorFineConfig]. rewrite mirrorPoint_vertical. f_equal; lra. }
  split; [|split; [lra|split; [exact Hlast|]]].
  - rewrite draw_mirror_trace by reflexivity.
    cbn [a strokingApp strokeTrace lastPos canvas solidCanvas width height
         mirrorAngle mirrorFineConfig].
    rewrite mirrorPoint_vertical. cbn [fst snd].
    unfold branchLastPos. cbn [symmetryMode mirrorFineConfig].
    assert (Hnot : isMirror (800 / 2) (600 / 2) 400.2 300 (2 * (800 / 2) - 400.2) 300 = false).
    { unfold isMirror.
      replace (2 * (800 / 2) - 400.2 - 800 / 2 - (400.2 - 800 / 2)) with (-0.4) by lra.
      replace (300 - 600 / 2 - (300 - 600 / 2)) with 0 by lra.
      rewrite Rabs_R0, Rabs_left by lra.
      destruct (Rlt_dec 1 (- -0.4)); [lra|].
      destruct (Rlt_dec 1 0); [lra | reflexivity]. }
    rewrite Hnot. reflexivity.
  - rewrite Hlast. intros H. injection H as H1. lra.
Qed.

(** C10: on the brush-stroke path, whatever the brush and symmetry modes,
    every symmetry instance hands back the shared last position it found
    (the temporary overwrite is undone), and the handler ends with the last
    position equal to the event point. *)
Theorem draw_brush_path_lastPos env cfg x y a :
  isDrawing a || isHolding a = true ->
  shapeMode cfg = None ->
  bleedEnabled cfg && isHolding a = false ->
  blendMode cfg = false ->
  lastPos (applySymmetry cfg (width (canvas a)) (height (canvas a)) x y
             (brushBranch env cfg x y) a) = lastPos a /\
  draw env cfg x y a =
    withLastPos (x, y)
      (applySymmetry cfg (width (canvas a)) (height (canvas a)) x y
         (brushBranch env cfg x y) a) /\
  lastPos (draw env cfg x y a) = (x, y).
Proof.
  intros Hactive Hshape Hbleed Hblend.
  assert (Hdraw : draw env cfg x y a =
    withLastPos (x, y)
      (applySymmetry cfg (width (canvas a)) (height (canvas a)) x y
         (brushBranch env cfg x y) a)).
  { unfold draw. rewrite Hshape, Hbleed, Hblend.
    destruct (isDrawing a), (isHolding a); cbn in Hactive |- *;
      try discriminate; reflexivity. }
  split; [|split].
  - unfold applySymmetry. destruct (symmetryMode cfg); reflexivity.
  - exact Hdraw.
  - rewrite Hdraw. reflexivity.
Qed.

(** Away from the axis the mirrored instance is recognised: when the
    reflection of the event point lies more than one pixel from it along x
    or y, the mirrored call starts from the reflection of the shared last
    position. *)
Lemma draw_mirror_trace_far env cfg x y a :
  isDrawing a || isHolding a = true ->
  shapeMode cfg = None ->
  bleedEnabled cfg && isHolding a = false ->
  blendMode cfg = false ->
  symmetryMode cfg = SymMirror ->
  let cx := IZR (width (canvas a)) / 2 in
  let cy := IZR (height (canvas a)) / 2 in
  let q := mirrorPoint (mirrorAngle cfg) cx cy x y in
  isMirror cx cy x y (fst q) (snd q) = true ->
  strokeTrace (draw env cfg x y a) =
  strokeTrace a ++
    [(lastPos a, (x, y));
     (mirrorPoint (mirrorAngle cfg) cx cy (fst (lastPos a)) (snd (lastPos a)),
      (fst q, snd q))].
Proof.
  intros Hactive Hshape Hbleed Hblend Hsym cx cy q Hfar.
  rewrite draw_mirror_trace by assumption. cbv zeta. fold cx cy q.
  unfold branchLastPos. rewrite Hsym. fold cx cy. rewrite Hfar. reflexivity.
Qed.

(** The scenario of the specification: vertical axis on an 800 x 600
    canvas, a point at (200, 300) is mirrored to (600, 300). *)
Example mirror_vertical_800x600 :
  mirrorPoint 90 (800 / 2) (600 / 2) 200 300 = (600, 300).
Proof. rewrite mirrorPoint_vertical. f_equal; lra. Qed.

End SymmetryProofs.

(** ** Bleed animator *)

Section BleedProofs.
Open Scope R_scope.

Lemma growRadius_bounds st :
  radius st <= maxRadius st ->
  radius st <= radius (growRadius st) <= maxRadius st /\
  maxRadius (growRadius st) = maxRadius st.
Proof.
  intros H. unfold growRadius; cbn [radius maxRadius].
  destruct (Rlt_dec (maxRadius st) (radius st + 1.5)); split; try reflexivity; lra.
Qed.

Lemma distanceOf_zero : distanceOf 0 0 = 0.
Proof. unfold distanceOf. rewrite Rmult_0_l, Rplus_0_l. apply sqrt_0. Qed.

Lemma holding_start env cfg x y a :
  0 <= brushSize cfg ->
  isDraggingPanel cfg = false -> fillMode cfg = false -> bleedEnabled cfg = true ->
  holding cfg x y (startDrawing env cfg x y a).
Proof.
  intros Hsize Hpanel Hfill Hbleed. unfold startDrawing.
  rewrite Hpanel, Hfill, Hbleed. repeat split; cbn; lra.
Qed.

Lemma holding_step env cfg x y a ev :
  bleedEnabled cfg = true ->
  holding cfg x y a ->
  holding cfg x y (holdStep env cfg x y a ev) /\
  radius (bleedState a) <= radius (bleedState (holdStep env cfg x y a ev)).
Proof.
  intros Hbleed (Hhold & Hlast & Hmax & Hle).
  destruct ev; cbn [holdStep].
  - unfold animate. rewrite Hhold, Hbleed. cbn [negb orb].
    destruct (growRadius_bounds _ Hle) as [[Hlo Hhi] Hm].
    unfold holding, withCanvas, withBleed; cbn [bleedState isHolding lastPos].
    rewrite Hm. repeat split; auto; lra.
  - unfold draw. rewrite Hhold, Hbleed. cbn [negb andb orb].
    rewrite andb_false_r. cbn [orb].
    destruct (shapeMode cfg).
    + unfold holding. repeat split; auto; lra.
    + rewrite Hlast. cbn [fst snd].
      replace (x - x) with 0 by ring. replace (y - y) with 0 by ring.
      rewrite distanceOf_zero.
      destruct (Rlt_dec 5 0); [lra|].
      unfold holding; cbn. repeat split; auto; lra.
Qed.

Lemma holding_run env cfg x y evs a :
  bleedEnabled cfg = true ->
  holding cfg x y a ->
  holding cfg x y (holdRun env cfg x y evs a).
Proof.
  intros Hbleed. unfold holdRun. revert a.
  induction evs as [|ev evs IH]; intros a Ha; cbn [fold_left]; [exact Ha|].
  apply IH. apply holding_step; assumption.
Qed.

(** C6: from the pointer-down that starts a bleed, and for as long as the
    pointer stays where it is, every animation frame (and every move event
    reporting the same point) leaves the radius at least as large as it
    was and at most [maxRadius = brushSize * 4], the cap set at the
    pointer-down. *)
Theorem bleed_radius_monotone_capped env cfg x y a evs ev :
  0 <= brushSize cfg ->
  isDraggingPanel cfg = false -> fillMode cfg = false -> bleedEnabled cfg = true ->
  let a0 := startDrawing env cfg x y a in
  let a1 := holdRun env cfg x y evs a0 in
  let a2 := holdStep env cfg x y a1 ev in
  maxRadius (bleedState a0) = brushSize cfg * 4 /\
  radius (bleedState a0) = 0 /\
  maxRadius (bleedState a2) = brushSize cfg * 4 /\
  radius (bleedState a1) <= radius (bleedState a2) /\
  radius (bleedState a2) <= brushSize cfg * 4.
Proof.
  intros Hsize Hpanel Hfill Hbleed a0 a1 a2.
  assert (H0 : holding cfg x y a0) by (apply holding_start; assumption).
  assert (H1 : holding cfg x y a1) by (apply holding_run; assumption).
  destruct (holding_step env cfg x y a1 ev Hbleed H1) as [(_ & _ & Hm & Hle) Hmono].
  destruct H0 as (_ & _ & Hm0 & _).
  fold a2 in Hm, Hle, Hmono.
  repeat split; try assumption.
  - subst a0. unfold startDrawing. rewrite Hpanel, Hfill, Hbleed. reflexivity.
  - lra.
Qed.

End BleedProofs.

(** The default brush size, three frames into a hold at (100, 100). *)
Lemma bleed_radius_monotone_capped_witness :
  let a0 := startDrawing idleBrowser bleedConfig 100 100
              (mountedApp (solidCanvas 4 4 10 10 10 255)) in
  let a1 := holdRun idleBrowser bleedConfig 100 100 [Frame; StillMove] a0 in
  let a2 := holdStep idleBrowser bleedConfig 100 100 a1 Frame in
  (maxRadius (bleedState a0) = brushSize bleedConfig * 4 /\
   radius (bleedState a0) = 0 /\
   maxRadius (bleedState a2) = brushSize bleedConfig * 4 /\
   radius (bleedState a1) <= radius (bleedState a2) /\
   radius (bleedState a2) <= brushSize bleedConfig * 4)%R.
Proof.
  apply (bleed_radius_monotone_capped idleBrowser bleedConfig 100 100
           (mountedApp (solidCanvas 4 4 10 10 10 255)) [Frame; StillMove] Frame).
  - cbn. lra.
  - reflexivity.
  - reflexivity.
  - reflexivity.
Defined.

(** ** Shape stamps *)

Section ShapeProofs.
Open Scope R_scope.

Lemma forUpTo_singleton {A} (n : Z) (f : nat -> A) :
  forUpTo n (fun i => [f i]) = map f (seq 0 (Z.to_nat n)).
Proof.
  unfold forUpTo. induction (seq 0 (Z.to_nat n)) as [|i l IH]; cbn; [reflexivity|].
  now rewrite IH.
Qed.

Lemma forUpTo_length {A} (n : Z) (k : nat) (body : nat -> list A) :
  (forall i, length (body i) = k) ->
  length (forUpTo n body) = (Z.to_nat n * k)%nat.
Proof.
  intros Hk. unfold forUpTo.
  assert (H : forall l : list nat, length (flat_map body l) = (length l * k)%nat).
  { induction l as [|i l IH]; cbn [flat_map length]; [reflexivity|].
    rewrite length_app, IH, Hk. lia. }
  rewrite H, length_seq. reflexivity.
Qed.

(** C7: with a non-negative brush size and a positive opacity, the
    concentric stamp is exactly [floor(brushSize / 8)] stroked circles
    around the stamp point; ring [i] has radius [(i + 1) * brushSize /
    numRings] (steps of [brushSize / numRings], the last one [brushSize])
    and stroke alpha [opacity * (1 - i / numRings)], strictly decreasing
    outwards; a brush size of 40 gives 5 rings. *)
Theorem concentric_stamp_rings cfg x y :
  0 <= brushSize cfg ->
  0 < opacity cfg ->
  let numRings := Zfloor (brushSize cfg / 8) in
  let rings := drawShape cfg x y Concentric in
  Z.of_nat (length rings) = numRings /\
  (forall i : nat, (i < length rings)%nat ->
     rings !! i =
     Some (StrokeArc
             (mkInk (selectedColor cfg) (opacity cfg * (1 - INR i / IZR numRings))
                    (opacity cfg))
             (lineWeight cfg) x y
             ((INR i + 1) * (brushSize cfg / IZR numRings)) 0 (PI * 2))) /\
  (forall i p q, rings !! i = Some p -> rings !! S i = Some q ->
     arcRadius q - arcRadius p = brushSize cfg / IZR numRings /\
     strokeAlpha q < strokeAlpha p) /\
  (forall p, last rings = Some p -> arcRadius p = brushSize cfg) /\
  (brushSize cfg = 40 -> length rings = 5%nat).
Proof.
  intros Hsize Hop numRings rings.
  assert (Hn0 : (0 <= numRings)%Z).
  { apply Zfloor_lub. cbn. lra. }
  assert (Hrings : rings =
    map (fun i => StrokeArc
             (mkInk (selectedColor cfg) (opacity cfg * (1 - INR i / IZR numRings))
                    (opacity cfg))
             (lineWeight cfg) x y
             ((INR i + 1) * (brushSize cfg / IZR numRings)) 0 (PI * 2))
        (seq 0 (Z.to_nat numRings))).
  { unfold rings, drawShape. fold numRings. apply forUpTo_singleton. }
  assert (Hlen : length rings = Z.to_nat numRings).
  { rewrite Hrings, length_map, length_seq. reflexivity. }
  assert (Hith : forall i : nat, (i < length rings)%nat ->
     rings !! i =
     Some (StrokeArc
             (mkInk (selectedColor cfg) (opacity cfg * (1 - INR i / IZR numRings))
                    (opacity cfg))
             (lineWeight cfg) x y
             ((INR i + 1) * (brushSize cfg / IZR numRings)) 0 (PI * 2))).
  { intros i Hi. rewrite Hrings, list_lookup_fmap, lookup_seq_lt by lia. reflexivity. }
  split; [lia|]. split; [exact Hith|]. split; [|split].
  - intros i p q Hp Hq.
    assert (Hi : (S i < length rings)%nat) by (eapply lookup_lt_Some; eauto).
    rewrite Hith in Hp, Hq by lia.
    assert (Hpos : 0 < IZR numRings) by (apply IZR_lt; lia).
    assert (HS : INR (S i) = INR i + 1) by apply S_INR.
    revert Hq. generalize (INR (S i)) HS. intros si -> Hq.
    injection Hp as <-. injection Hq as <-.
    cbn [arcRadius strokeAlpha inkAlpha].
    split; [field; lra|].
    apply Rmult_lt_compat_l; [assumption|].
    apply Rplus_lt_compat_l, Ropp_lt_contravar.
    unfold Rdiv. apply Rmult_lt_compat_r; [apply Rinv_0_lt_compat; assumption | lra].
  - intros p Hp.
    rewrite last_lookup in Hp.
    assert (Hlt : (Nat.pred (length rings) < length rings)%nat)
      by (eapply lookup_lt_Some; eauto).
    rewrite Hith in Hp by assumption. injection Hp as <-.
    cbn [arcRadius].
    assert (Hcount : INR (Nat.pred (length rings)) + 1 = IZR numRings).
    { rewrite <- S_INR, INR_IZR_INZ. f_equal. lia. }
    rewrite Hcount.
    assert (Hpos : 0 < IZR numRings) by (apply IZR_lt; lia).
    field. lra.
  - intros H40. rewrite Hlen. unfold numRings. rewrite H40.
    replace (Zfloor (40 / 8)) with 5%Z; [reflexivity|].
    symmetry. apply Zfloor_eq. lra.
Qed.

End ShapeProofs.

(** The scenario of the specification: a stamp at (100, 100) with the
    default brush size 40 and opacity 0.7. *)
Lemma concentric_stamp_rings_witness :
  (0 <= brushSize defaultConfig /\ 0 < opacity defaultConfig)%R /\
  length (drawShape defaultConfig 100 100 Concentric) = 5%nat.
Proof.
  assert (Hsize : (0 <= brushSize defaultConfig)%R) by (cbn; lra).
  assert (Hop : (0 < opacity defaultConfig)%R) by (cbn; lra).
  split; [split; assumption|].
  apply (concentric_stamp_rings defaultConfig 100 100 Hsize Hop).
  reflexivity.
Defined.

(** ** Blend / smudge engine *)

Section BlendProofs.
Open Scope R_scope.

(** The two early returns of [drawBlend] (lines 360 and 369): the canvas is
    left as it was and the [catch] block is not entered. *)
Lemma drawBlend_guards env cfg c x y lastX lastY :
  distanceOf (x - lastX) (y - lastY) < 1 \/
  (blendSourceWidth cfg c lastX <= 0)%Z \/
  (blendSourceHeight cfg c lastY <= 0)%Z ->
  drawBlend env cfg c x y lastX lastY = (c, false).
Proof.
  intros H. unfold drawBlend.
  destruct (Rlt_dec (distanceOf (x - lastX) (y - lastY)) 1) as [|Hfar]; [reflexivity|].
  destruct H as [H | H]; [contradiction|].
  fold (blendSourceWidth cfg c lastX) (blendSourceHeight cfg c lastY).
  destruct (Z.leb_spec (blendSourceWidth cfg c lastX) 0) as [|Hw]; [reflexivity|].
  destruct (Z.leb_spec (blendSourceHeight cfg c lastY) 0) as [|Hh]; [reflexivity|].
  lia.
Qed.

(** A sample square that starts at or beyond the right or the bottom edge
    of the canvas is caught by the second guard. *)
Lemma drawBlend_beyond_right_or_bottom env cfg c x y lastX lastY :
  (width c <= Zfloor (lastX - brushSize cfg * 0.5))%Z \/
  (height c <= Zfloor (lastY - brushSize cfg * 0.5))%Z ->
  drawBlend env cfg c x y lastX lastY = (c, false).
Proof.
  intros H. apply drawBlend_guards. right.
  unfold blendSourceWidth, blendSourceHeight. cbv zeta. lia.
Qed.

(** Seen from the handler: a symmetry instance whose motion is below one
    pixel leaves the canvas untouched. *)
Lemma blendBranch_still env cfg x y sx sy a :
  let lastS := branchLastPos cfg (width (canvas a)) (height (canvas a)) x y sx sy
                 (lastPos a) in
  distanceOf (sx - fst lastS) (sy - snd lastS) < 1 ->
  canvas (blendBranch env cfg x y sx sy a) = canvas a.
Proof.
  intros lastS H. unfold blendBranch, drawBlend. fold lastS.
  destruct (Rlt_dec (distanceOf (sx - fst lastS) (sy - snd lastS)) 1);
    [reflexivity | contradiction].
Qed.

(** A mirror axis at 45 degrees swaps the offsets from the centre. *)
Lemma mirrorPoint_diagonal (centerX centerY x y : R) :
  mirrorPoint 45 centerX centerY x y = (y - centerY + centerX, x - centerX + centerY).
Proof.
  unfold mirrorPoint.
  replace (2 * (45 * PI / 180)) with (PI / 2) by field.
  rewrite cos_PI2, sin_PI2. f_equal; ring.
Qed.

(** [getImageData(x, y, 1, 1)] reads the four channels of one pixel. *)
Lemma getImageData_pixel c (x y : Z) :
  getImageData c x y 1 1 =
  Some [channelAt c (x + 0) (y + 0) 0; channelAt c (x + 0) (y + 0) 1;
        channelAt c (x + 0) (y + 0) 2; channelAt c (x + 0) (y + 0) 3]%Z.
Proof. reflexivity. Qed.

(** Above the canvas [getImageData] reads transparent black. *)
Lemma channelAt_above c (x y k : Z) : (y < 0)%Z -> channelAt c x y k = 0%Z.
Proof.
  intros Hy. unfold channelAt.
  assert (H : (0 <=? y)%Z = false) by (apply Z.leb_gt; exact Hy).
  rewrite H, andb_false_r. reflexivity.
Qed.

(** No path through [drawBlend] resizes the canvas. *)
Lemma drawBlend_size env cfg c x y lastX lastY :
  width (fst (drawBlend env cfg c x y lastX lastY)) = width c /\
  height (fst (drawBlend env cfg c x y lastX lastY)) = height c.
Proof.
  unfold drawBlend. cbv zeta.
  destruct (Rlt_dec _ _); [auto|].
  destruct (_ || _)%bool; [auto|].
  destruct (getImageData c _ _ _ _); [|auto].
  destruct (Rlt_dec _ _); [auto|].
  destruct (getImageData _ _ _ _ _); auto.
Qed.

(** The move from (10, 300) to (10, 310) in blend mode under the 45-degree
    mirror, on an 800 x 600 canvas: the real instance smudges along the
    move, and the mirrored one is asked to smudge from (400, -90) to
    (410, -90), above the canvas. *)
Lemma draw_blend_mirror_instance env a :
  isDrawing a = true -> lastPos a = (10, 300) ->
  width (canvas a) = 800%Z -> height (canvas a) = 600%Z ->
  canvas (draw env mirrorBlendConfig 10 310 a) =
  fst (drawBlend env mirrorBlendConfig
         (fst (drawBlend env mirrorBlendConfig (canvas a) 10 310 10 300))
         410 (-90) 400 (-90)).
Proof.
  intros Hd Hlast Hw Hh. unfold draw. rewrite Hd.
  cbn [negb andb orb shapeMode bleedEnabled blendMode mirrorBlendConfig withLastPos canvas].
  rewrite applySymmetry_mirror by reflexivity. cbv zeta.
  cbn [mirrorAngle mirrorBlendConfig]. rewrite mirrorPoint_diagonal, Hw, Hh.
  cbn [fst snd].
  replace (310 - 600 / 2 + 800 / 2) with 410 by lra.
  replace (10 - 800 / 2 + 600 / 2) with (-90) by lra.
  assert (Hreal : blendBranch env mirrorBlendConfig 10 310 10 310 a =
            withCanvas (fst (drawBlend env mirrorBlendConfig (canvas a) 10 310 10 300))
                       (rngPos a) a).
  { unfold blendBranch, branchLastPos, isMirror.
    cbn [symmetryMode mirrorBlendConfig].
    replace (10 - IZR (width (canvas a)) / 2 - (10 - IZR (width (canvas a)) / 2))
      with 0 by ring.
    replace (310 - IZR (height (canvas a)) / 2 - (310 - IZR (height (canvas a)) / 2))
      with 0 by ring.
    rewrite Rabs_R0. destruct (Rlt_dec 1 0) as [Hno|_]; [lra|].
    cbn [orb]. rewrite Hlast. reflexivity. }
  rewrite Hreal. unfold blendBranch at 1. cbn [withCanvas canvas lastPos].
  destruct (drawBlend_size env mirrorBlendConfig (canvas a) 10 310 10 300) as [-> ->].
  rewrite Hw, Hh, Hlast.
  unfold branchLastPos, isMirror.
  cbn [symmetryMode mirrorAngle mirrorBlendConfig fst snd].
  replace (410 - 800 / 2 - (10 - 800 / 2)) with 400 by lra.
  rewrite (Rabs_pos_eq 400) by lra.
  destruct (Rlt_dec 1 400) as [_|Hno]; [|lra].
  cbn [orb]. rewrite mirrorPoint_diagonal. cbn [fst snd].
  replace (300 - 600 / 2 + 800 / 2) with 400 by lra.
  replace (10 - 800 / 2 + 600 / 2) with (-90) by lra.
  reflexivity.
Qed.

(** C9, the defect: canvas 800 x 600, blend mode under a 45-degree mirror,
    brush size 40, last position (10, 300), pointer moved to (10, 310).
    The mirrored instance calls [drawBlend(ctx, 410, -90, 400, -90)].  The
    sample square around (400, -90) covers rows -110 to -71: clipped to
    the canvas it has the negative height -70, where a silent no-op is
    specified.  The code clamps the corner to row 0 without shortening the
    square, gets [sourceHeight = 40], passes its guard and paints: it reads
    the 40 x 40 block at (380, 0), puts it back 5 pixels to the right and
    fills the gradient around (410, -90) with the transparent black it
    sampled there.  The result is what the browser makes of the two
    calls. *)
Theorem drawBlend_offcanvas_sample_painted env (d : list Z) :
  let c := mkCanvas 800 600 d in
  let put img := PutImageData img 40 40 (380 + (410 - 400) * 0.5)
                   (0 + (-90 - (-90)) * 0.5) (0.7 * 0.8) in
  let gradient := FillRadialGradient 410 (-90) (40 * 0.5) [Some 0; Some 0; Some 0]%Z
                    (0.7 * 0.3) in
  mirrorPoint (mirrorAngle mirrorBlendConfig) (IZR (width c) / 2) (IZR (height c) / 2)
    10 310 = (410, -90) /\
  branchLastPos mirrorBlendConfig (width c) (height c) 10 310 410 (-90) (10, 300)
    = (400, -90) /\
  ~ distanceOf (410 - 400) (-90 - (-90)) < 1 /\
  (specClippedHeight mirrorBlendConfig c (-90) = -70)%Z /\
  (blendSourceWidth mirrorBlendConfig c 400 = 40)%Z /\
  (blendSourceHeight mirrorBlendConfig c (-90) = 40)%Z /\
  exists img,
    getImageData c 380 0 40 40 = Some img /\
    drawBlend env mirrorBlendConfig c 410 (-90) 400 (-90)
    = (paint env gradient (paint env (put img) c), false) /\
    (rasterize env gradient (paint env (put img) c) <> d ->
     fst (drawBlend env mirrorBlendConfig c 410 (-90) 400 (-90)) <> c).
Proof.
  intros c put gradient.
  assert (Hfx : Zfloor (400 - 40 * 0.5) = 380%Z) by (apply Zfloor_eq; lra).
  assert (Hfy : Zfloor (-90 - 40 * 0.5) = (-110)%Z) by (apply Zfloor_eq; lra).
  assert (Hce : Zceil (40 * 0.5 * 2) = 40%Z) by (apply Zceil_eq; lra).
  assert (Hfar : ~ distanceOf (410 - 400) (-90 - (-90)) < 1).
  { unfold distanceOf.
    replace ((410 - 400) * (410 - 400) + (-90 - (-90)) * (-90 - (-90))) with (10 * 10)
      by ring.
    rewrite sqrt_square by lra. lra. }
  assert (Hlast : mirrorPoint 45 (800 / 2) (600 / 2) 10 300 = (400, -90)).
  { rewrite mirrorPoint_diagonal. f_equal; lra. }
  split; [|split; [|split; [|split; [|split; [|split]]]]].
  - cbn [mirrorAngle mirrorBlendConfig width height c].
    rewrite mirrorPoint_diagonal. f_equal; lra.
  - unfold branchLastPos, isMirror.
    cbn [symmetryMode mirrorAngle mirrorBlendConfig fst snd width height c].
    replace (410 - 800 / 2 - (10 - 800 / 2)) with 400 by lra.
    rewrite (Rabs_pos_eq 400) by lra.
    destruct (Rlt_dec 1 400) as [_|Hno]; [|lra].
    cbn [orb]. exact Hlast.
  - exact Hfar.
  - unfold specClippedHeight, clippedExtent.
    cbn [brushSize mirrorBlendConfig height c]. rewrite Hfy, Hce. reflexivity.
  - unfold blendSourceWidth. cbv zeta.
    cbn [brushSize mirrorBlendConfig width c]. rewrite Hfx, Hce. reflexivity.
  - unfold blendSourceHeight. cbv zeta.
    cbn [brushSize mirrorBlendConfig height c]. rewrite Hfy, Hce. reflexivity.
  - assert (Himg : exists img, getImageData c 380 0 40 40 = Some img).
    { unfold getImageData.
      replace ((40 =? 0)%Z || (40 =? 0)%Z) with false by reflexivity.
      eexists. reflexivity. }
    destruct Himg as [img Himg]. exists img. split; [exact Himg|].
    assert (Hcall : drawBlend env mirrorBlendConfig c 410 (-90) 400 (-90)
                    = (paint env gradient (paint env (put img) c), false)).
    { unfold drawBlend. cbv zeta.
      cbn [brushSize opacity mirrorBlendConfig width height c].
      rewrite Hfx, Hfy, Hce.
      destruct (Rlt_dec (distanceOf (410 - 400) (-90 - -90)) 1) as [Hnear|_];
        [contradiction|].
      replace (Z.max 0 380) with 380%Z by reflexivity.
      replace (Z.max 0 (-110)) with 0%Z by reflexivity.
      replace (Z.min (800 - 380) 40) with 40%Z by reflexivity.
      replace (Z.min (600 - 0) 40) with 40%Z by reflexivity.
      replace ((40 <=? 0)%Z || (40 <=? 0)%Z) with false by reflexivity.
      fold c. rewrite Himg.
      destruct (Rlt_dec (40 * 0.5) 0) as [Hneg|_]; [lra|].
      rewrite (ZfloorZ 410), (ZfloorZ (-90)), getImageData_pixel.
      rewrite !channelAt_above by lia. reflexivity. }
    split; [exact Hcall|].
    rewrite Hcall. cbn [fst]. unfold paint at 1. intros Hchanged Heq.
    apply Hchanged. unfold c in Heq.
    injection Heq as Hd. exact Hd.
Qed.

End BlendProofs.

(** A pointer that has not moved, and a previous point whose sample square
    lies right of an 8 x 8 canvas. *)
Example drawBlend_guards_run :
  drawBlend idleBrowser defaultConfig (solidCanvas 8 8 10 10 10 255) 3 3 3 3
    = (solidCanvas 8 8 10 10 10 255, false) /\
  drawBlend idleBrowser defaultConfig (solidCanvas 8 8 10 10 10 255) 3 3 100 3
    = (solidCanvas 8 8 10 10 10 255, false).
Proof.
  split.
  - apply drawBlend_guards. left.
    replace (3 - 3)%R with 0%R by ring.
    unfold distanceOf. rewrite Rmult_0_l, Rplus_0_l, sqrt_0. lra.
  - apply drawBlend_beyond_right_or_bottom. left.
    cbn [brushSize defaultConfig width solidCanvas].
    replace (Zfloor (100 - 40 * 0.5)) with 80%Z by (symmetry; apply Zfloor_eq; lra).
    lia.
Qed.

(** ** Brush stroke engine *)

Section BrushProofs.
Open Scope R_scope.

Lemma distanceOf_nonneg dx dy : 0 <= distanceOf dx dy.
Proof. unfold distanceOf. apply sqrt_pos. Qed.

Lemma Zfloor_double (a : R) : (2 * Zfloor a <= Zfloor (2 * a))%Z.
Proof.
  apply Zfloor_lub. rewrite mult_IZR.
  destruct (Zfloor_bound a). lra.
Qed.

Lemma Zfloor_nonneg (a : R) : 0 <= a -> (0 <= Zfloor a)%Z.
Proof. intros H. apply Zfloor_lub. cbn. lra. Qed.

(** The number of primitives a stroke emits in the four sampled modes. *)
Lemma brushStrokePaints_length env cfg rng last x y :
  distanceParameterised (brushMode cfg) ->
  length (brushStrokePaints env cfg rng last x y) =
  (Z.to_nat (sampleCount (brushMode cfg) (segmentLength last x y))
   * perSample (brushMode cfg))%nat.
Proof.
  intros Hm. unfold brushStrokePaints, segmentLength.
  destruct Hm as [Hm | [Hm | [Hm | Hm]]]; rewrite Hm; cbn [sampleCount perSample].
  - apply forUpTo_length. reflexivity.
  - apply forUpTo_length. intros i.
    rewrite (forUpTo_length 8 1) by reflexivity. reflexivity.
  - apply forUpTo_length. reflexivity.
  - apply forUpTo_length. reflexivity.
Qed.

(** C8 (amended): when one segment is twice as long as another, a
    distance-parameterised brush emits on it at least as many primitives,
    and at least twice as many bar one sample's worth (1 dot, 8 spokes, 2
    ticks): the sample at the segment start comes once however long the
    segment is.  For stipple, which has no such sample, the count at least
    doubles. *)
Theorem brush_primitives_scale env cfg rng1 rng2 last1 x1 y1 last2 x2 y2 :
  distanceParameterised (brushMode cfg) ->
  segmentLength last2 x2 y2 = 2 * segmentLength last1 x1 y1 ->
  let n1 := length (brushStrokePaints env cfg rng1 last1 x1 y1) in
  let n2 := length (brushStrokePaints env cfg rng2 last2 x2 y2) in
  (n1 <= n2)%nat /\
  (2 * n1 <= n2 + perSample (brushMode cfg))%nat /\
  (brushMode cfg = Stipple -> 2 * n1 <= n2)%nat.
Proof.
  intros Hm Hd n1 n2. unfold n1, n2.
  rewrite !brushStrokePaints_length by assumption. rewrite Hd.
  set (d := segmentLength last1 x1 y1).
  assert (Hd0 : 0 <= d) by apply distanceOf_nonneg.
  destruct Hm as [Hm | [Hm | [Hm | Hm]]]; rewrite Hm; cbn [sampleCount perSample].
  - replace (2 * d / 3) with (2 * (d / 3)) by field.
    assert (H1 := Zfloor_double (d / 3)).
    assert (H0 : (0 <= Zfloor (d / 3))%Z) by (apply Zfloor_nonneg; lra).
    repeat split; try discriminate; lia.
  - replace (2 * d / 20) with (2 * (d / 20)) by field.
    assert (H1 := Zfloor_double (d / 20)).
    assert (H0 : (0 <= Zfloor (d / 20))%Z) by (apply Zfloor_nonneg; lra).
    repeat split; try discriminate; lia.
  - replace (2 * d / 15) with (2 * (d / 15)) by field.
    assert (H1 := Zfloor_double (d / 15)).
    assert (H0 : (0 <= Zfloor (d / 15))%Z) by (apply Zfloor_nonneg; lra).
    repeat split; try discriminate; lia.
  - replace (2 * d * 0.5) with (2 * (d * 0.5)) by field.
    assert (H1 := Zfloor_double (d * 0.5)).
    assert (H0 : (0 <= Zfloor (d * 0.5))%Z) by (apply Zfloor_nonneg; lra).
    repeat split; intros; lia.
Qed.

Lemma segmentLength_horizontal (x : R) : 0 <= x -> segmentLength (0, 0) x 0 = x.
Proof.
  intros Hx. unfold segmentLength, distanceOf. cbn [fst snd].
  replace ((x - 0) * (x - 0) + (0 - 0) * (0 - 0)) with (x * x) by ring.
  apply sqrt_square. assumption.
Qed.

Lemma dots_count_horizontal env (x : R) (k : Z) :
  0 <= x -> IZR k <= x / 3 < IZR k + 1 -> (0 <= k)%Z ->
  length (brushStrokePaints env dotsConfig 0 (0, 0) x 0) = Z.to_nat (k + 1).
Proof.
  intros Hx Hk Hk0.
  rewrite brushStrokePaints_length by (left; reflexivity).
  cbn [brushMode dotsConfig sampleCount perSample].
  rewrite segmentLength_horizontal by assumption.
  rewrite (Zfloor_eq k) by assumption. lia.
Qed.

(** The fuel of the segments brush is enough: whatever is added to it, the
    loop emits the same strokes, so it is the exit test that ends it. *)
Lemma segmentsLoop_fuel_enough fuel extra ink lw last dx dy distance currentDist drawing :
  distance <= currentDist + 5 * INR fuel ->
  segmentsLoop (fuel + extra) ink lw last dx dy distance currentDist drawing =
  segmentsLoop fuel ink lw last dx dy distance currentDist drawing.
Proof.
  revert currentDist drawing.
  induction fuel as [|fuel IH]; intros currentDist drawing Hreach.
  - cbn [INR] in Hreach. cbn [Nat.add segmentsLoop].
    destruct extra as [|extra]; cbn [segmentsLoop]; [reflexivity|].
    destruct (Rlt_dec currentDist distance); [lra | reflexivity].
  - rewrite S_INR in Hreach. cbn [Nat.add segmentsLoop].
    destruct (Rlt_dec currentDist distance); [|reflexivity].
    rewrite !IH by lra. reflexivity.
Qed.

Lemma segments_fuel_reaches (distance : R) :
  distance <= 0 + 5 * INR (Z.to_nat (Zceil (distance / 5))).
Proof.
  destruct (Zceil_bound (distance / 5)) as [_ Hup].
  assert (IZR (Zceil (distance / 5)) <= INR (Z.to_nat (Zceil (distance / 5)))).
  { rewrite INR_IZR_INZ. apply IZR_le. lia. }
  lra.
Qed.

End BrushProofs.

(** Dots brush, a 3px segment and a 6px one. *)
Lemma brush_primitives_scale_witness :
  let n1 := length (brushStrokePaints idleBrowser dotsConfig 0 (0, 0)%R 3 0) in
  let n2 := length (brushStrokePaints idleBrowser dotsConfig 0 (0, 0)%R 6 0) in
  (n1 <= n2)%nat /\
  (2 * n1 <= n2 + perSample (brushMode dotsConfig))%nat /\
  (brushMode dotsConfig = Stipple -> 2 * n1 <= n2)%nat.
Proof.
  apply (brush_primitives_scale idleBrowser dotsConfig 0 0 (0, 0)%R 3 0 (0, 0)%R 6 0).
  - left. reflexivity.
  - rewrite !segmentLength_horizontal by lra. lra.
Defined.

(** C8 as the specification words it fails for the dots brush: a 3px segment
    gets 2 dots, the 6px segment twice as long gets 3, not 4 or more. *)
Lemma brush_dots_doubling_fails :
  let n1 := length (brushStrokePaints idleBrowser dotsConfig 0 (0, 0)%R 3 0) in
  let n2 := length (brushStrokePaints idleBrowser dotsConfig 0 (0, 0)%R 6 0) in
  (segmentLength (0, 0) 6 0 = 2 * segmentLength (0, 0) 3 0)%R /\
  n1 = 2%nat /\ n2 = 3%nat /\ ~ (2 * n1 <= n2)%nat.
Proof.
  assert (H1 : length (brushStrokePaints idleBrowser dotsConfig 0 (0, 0)%R 3 0) = 2%nat).
  { rewrite (dots_count_horizontal idleBrowser 3 1); [reflexivity | lra | lra | lia]. }
  assert (H2 : length (brushStrokePaints idleBrowser dotsConfig 0 (0, 0)%R 6 0) = 3%nat).
  { rewrite (dots_count_horizontal idleBrowser 6 2); [reflexivity | lra | lra | lia]. }
  cbv zeta. rewrite H1, H2.
  split; [rewrite !segmentLength_horizontal by lra; lra|].
  repeat split. lia.
Qed.

(** ** Flood fill engine *)

Section ArrayFacts.
Open Scope Z_scope.
Implicit Types (l : list Z) (i j v : Z).

Lemma jsSet_length l i v : length (jsSet l i v) = length l.
Proof. unfold jsSet. destruct (i <? 0); [reflexivity | apply length_insert]. Qed.

Lemma jsGet_jsSet_eq l i v :
  0 <= i < Z.of_nat (length l) -> jsGet (jsSet l i v) i = Some (clamp8 v).
Proof.
  intros Hi. unfold jsGet, jsSet.
  destruct (Z.ltb_spec i 0); [lia|].
  apply list_lookup_insert_eq. lia.
Qed.

Lemma jsGet_jsSet_ne l i j v : i <> j -> jsGet (jsSet l i v) j = jsGet l j.
Proof.
  intros Hne. unfold jsGet, jsSet.
  destruct (Z.ltb_spec j 0); [reflexivity|].
  destruct (Z.ltb_spec i 0); [reflexivity|].
  apply list_lookup_insert_ne. lia.
Qed.

Lemma jsGet_in_range l i :
  0 <= i < Z.of_nat (length l) -> exists v, jsGet l i = Some v.
Proof.
  intros Hi. unfold jsGet. destruct (Z.ltb_spec i 0); [lia|].
  apply lookup_lt_is_Some_2. lia.
Qed.

Lemma sameRead_eq (a b : option Z) : sameRead a b = true <-> a = b.
Proof.
  destruct a as [u|], b as [v|]; cbn; split; intros H; try congruence.
  - apply Z.eqb_eq in H. congruence.
  - injection H as ->. apply Z.eqb_refl.
Qed.

Lemma readIs_eq (a : option Z) (n : Z) : readIs a n = true <-> a = Some n.
Proof.
  destruct a as [u|]; cbn; split; intros H; try congruence.
  - apply Z.eqb_eq in H. congruence.
  - injection H as ->. apply Z.eqb_refl.
Qed.

(** The four stores of one pixel, read back. *)
Lemma rgbaAt_written l w p c0 c1 c2 c3 :
  let pos := (snd p * w + fst p) * 4 in
  0 <= pos -> pos + 3 < Z.of_nat (length l) ->
  rgbaAt (jsSet (jsSet (jsSet (jsSet l pos c0) (pos + 1) c1) (pos + 2) c2) (pos + 3) c3) w p
  = (Some (clamp8 c0), Some (clamp8 c1), Some (clamp8 c2), Some (clamp8 c3)).
Proof.
  intros pos H0 H3. unfold rgbaAt. fold pos.
  repeat f_equal.
  - rewrite !jsGet_jsSet_ne by lia. apply jsGet_jsSet_eq. lia.
  - rewrite !jsGet_jsSet_ne by lia. apply jsGet_jsSet_eq. rewrite jsSet_length. lia.
  - rewrite !jsGet_jsSet_ne by lia. apply jsGet_jsSet_eq. rewrite !jsSet_length. lia.
  - apply jsGet_jsSet_eq. rewrite !jsSet_length. lia.
Qed.

(** ... and every other pixel keeps its channels. *)
Lemma rgbaAt_elsewhere l w p q c0 c1 c2 c3 :
  let pos := (snd p * w + fst p) * 4 in
  snd q * w + fst q <> snd p * w + fst p ->
  rgbaAt (jsSet (jsSet (jsSet (jsSet l pos c0) (pos + 1) c1) (pos + 2) c2) (pos + 3) c3) w q
  = rgbaAt l w q.
Proof.
  intros pos Hne. unfold rgbaAt.
  rewrite !jsGet_jsSet_ne by (unfold pos; lia). reflexivity.
Qed.

Lemma countZeros_repeat (n : nat) : countZeros (repeat 0 n) = n.
Proof. induction n as [|n IH]; cbn; [reflexivity | now rewrite IH]. Qed.

Lemma countZeros_mark l (i : nat) :
  l !! i = Some 0 -> (countZeros (<[i := 1%Z]> l) + 1 = countZeros l)%nat.
Proof.
  revert i. induction l as [|v l IH]; intros [|i] H; cbn in H; try discriminate.
  - injection H as ->. cbn. lia.
  - cbn [countZeros]. change (<[S i := 1]> (v :: l)) with (v :: <[i := 1]> l).
    cbn [countZeros]. specialize (IH i H). lia.
Qed.

End ArrayFacts.

Section FloodInvariant.
Open Scope Z_scope.
Variables (cfg : Config) (job : FillJob) (c : Canvas) (seed : Pixel).
Hypothesis Hwf : wellFormed c.
Hypothesis Hjw : jobWidth job = width c.
Hypothesis Hjh : jobHeight job = height c.
Hypothesis Hstart :
  (startR job, startG job, startB job, startA job) = pixelOf c seed.
Hypothesis Hpat : fillPattern cfg = Solid \/ exists pc, patternCanvas job = Some pc.
Hypothesis Hseed : inCanvas c seed.

Lemma cellIndex_range p :
  inCanvas c p -> 0 <= cellIndex c p < width c * height c.
Proof.
  destruct Hwf as (Hw & Hh & _). unfold inCanvas, cellIndex. intros [Hx Hy]. nia.
Qed.

Lemma cellIndex_inj p q :
  inCanvas c p -> inCanvas c q -> cellIndex c p = cellIndex c q -> p = q.
Proof.
  destruct p as [x y], q as [x' y']. unfold inCanvas, cellIndex. cbn [fst snd].
  intros [Hx Hy] [Hx' Hy'] Heq.
  assert (y = y') by nia. subst y'.
  assert (x = x') by lia. subst x'. reflexivity.
Qed.

Lemma pixel_in_raster p :
  inCanvas c p ->
  0 <= cellIndex c p * 4 /\ cellIndex c p * 4 + 3 < Z.of_nat (length (data c)).
Proof.
  intros Hp. destruct (cellIndex_range p Hp). destruct Hwf as (_ & _ & Hlen). lia.
Qed.

Lemma matchesStart_spec p :
  matchesStart job c (data c) p = true <-> pixelOf c p = pixelOf c seed.
Proof.
  rewrite <- Hstart. unfold matchesStart, pixelOf, rgbaAt. fold (cellIndex c p).
  rewrite !andb_true_iff, !sameRead_eq. split.
  - intros [[[-> ->] ->] ->]. reflexivity.
  - intros H. injection H as -> -> -> ->. auto.
Qed.

Lemma matchesStart_ext d d' p :
  rgbaAt d (width c) p = rgbaAt d' (width c) p ->
  matchesStart job c d p = matchesStart job c d' p.
Proof.
  unfold matchesStart, rgbaAt. fold (cellIndex c p).
  intros H. injection H as -> -> -> ->. reflexivity.
Qed.

Lemma marked_set_same v p :
  inCanvas c p -> Z.of_nat (length v) = width c * height c ->
  marked c (<[Z.to_nat (cellIndex c p) := 1]> v) p = true.
Proof.
  intros Hp Hlen. destruct (cellIndex_range p Hp).
  unfold marked, jsGet. destruct (Z.ltb_spec (cellIndex c p) 0); [lia|].
  rewrite list_lookup_insert_eq by lia. reflexivity.
Qed.

Lemma marked_set_other v p q :
  inCanvas c p -> inCanvas c q -> q <> p ->
  marked c (<[Z.to_nat (cellIndex c p) := 1]> v) q = marked c v q.
Proof.
  intros Hp Hq Hne. destruct (cellIndex_range p Hp), (cellIndex_range q Hq).
  assert (cellIndex c q <> cellIndex c p).
  { intros Heq. apply Hne. apply cellIndex_inj; assumption. }
  unfold marked, jsGet. destruct (Z.ltb_spec (cellIndex c q) 0); [lia|].
  rewrite list_lookup_insert_ne by lia. reflexivity.
Qed.

Lemma unmarked_is_zero v p :
  inCanvas c p -> Z.of_nat (length v) = width c * height c ->
  marked c v p = false -> v !! Z.to_nat (cellIndex c p) = Some 0.
Proof.
  intros Hp Hlen. destruct (cellIndex_range p Hp).
  unfold marked, jsGet, truthy. destruct (Z.ltb_spec (cellIndex c p) 0); [lia|].
  destruct (v !! Z.to_nat (cellIndex c p)) as [u|] eqn:Hu.
  - destruct (Z.eqb_spec u 0); [congruence | discriminate].
  - apply lookup_ge_None in Hu. lia.
Qed.

Lemma outside_not_inCanvas x y :
  (x <? 0) || (x >=? width c) || (y <? 0) || (y >=? height c) = true ->
  ~ inCanvas c (x, y).
Proof. unfold inCanvas. cbn [fst snd]. lia. Qed.

Lemma inside_inCanvas x y :
  (x <? 0) || (x >=? width c) || (y <? 0) || (y >=? height c) = false ->
  inCanvas c (x, y).
Proof. unfold inCanvas. cbn [fst snd]. lia. Qed.

Lemma marked_set_mono v p q :
  inCanvas c p -> inCanvas c q -> Z.of_nat (length v) = width c * height c ->
  marked c v q = true ->
  marked c (<[Z.to_nat (cellIndex c p) := 1]> v) q = true.
Proof.
  intros Hp Hq Hlen Hm. destruct (decide (q = p)) as [->|Hne].
  - apply marked_set_same; assumption.
  - rewrite marked_set_other; assumption.
Qed.

(** Dropping worklist entries that are outside the canvas or already
    marked keeps the invariant. *)
Lemma fillInv_drop st rest :
  fillInv cfg job c seed st ->
  (forall q, q ∈ worklistPixels (pixelsToCheck st) ->
     q ∈ worklistPixels rest \/ ~ inCanvas c q \/ marked c (visited st) q = true) ->
  (forall q, q ∈ worklistPixels rest -> q ∈ worklistPixels (pixelsToCheck st)) ->
  fillInv cfg job c seed (mkFillLoop (pixels st) (visited st) rest).
Proof.
  intros [Hpl Hvl Hpx Hsound Hwork Hclosed Hsd] Hdrop Hsub.
  constructor; cbn [pixels visited pixelsToCheck].
  - assumption.
  - assumption.
  - assumption.
  - assumption.
  - intros q Hin. apply Hwork, Hsub, Hin.
  - intros p q Hp Hmp Hmatch Hadj Hq.
    destruct (Hclosed p q Hp Hmp Hmatch Hadj Hq) as [Hm | Hin]; [auto|].
    destruct (Hdrop q Hin) as [H | [H | H]];
      [right; exact H | contradiction | left; exact H].
  - destruct Hsd as [Hm | Hin]; [auto|].
    destruct (Hdrop seed Hin) as [H | [H | H]];
      [right; exact H | contradiction | left; exact H].
Qed.

(** Marking a pixel that does not match the start colour. *)
Lemma fillInv_skip st x y rest :
  fillInv cfg job c seed st ->
  pixelsToCheck st = y :: x :: rest ->
  inCanvas c (x, y) ->
  marked c (visited st) (x, y) = false ->
  matchesStart job c (data c) (x, y) = false ->
  fillInv cfg job c seed
    (mkFillLoop (pixels st) (<[Z.to_nat (cellIndex c (x, y)) := 1]> (visited st)) rest).
Proof.
  intros [Hpl Hvl Hpx Hsound Hwork Hclosed Hsd] Hstack Hp0 Hun Hno.
  rewrite Hstack in *. cbn [worklistPixels] in *.
  constructor; cbn [pixels visited pixelsToCheck].
  - assumption.
  - rewrite length_insert. assumption.
  - intros q Hq. destruct (decide (q = (x, y))) as [->|Hne].
    + rewrite Hno, andb_false_r. rewrite Hpx, Hun by assumption. reflexivity.
    + rewrite marked_set_other by assumption. apply Hpx. assumption.
  - intros q Hq Hm Hmatch. destruct (decide (q = (x, y))) as [->|Hne]; [congruence|].
    rewrite marked_set_other in Hm by assumption. auto.
  - intros q Hin. apply Hwork. apply elem_of_cons. auto.
  - intros p q Hp Hmp Hmatch Hadj Hq.
    destruct (decide (p = (x, y))) as [->|Hne]; [congruence|].
    rewrite marked_set_other in Hmp by assumption.
    destruct (Hclosed p q Hp Hmp Hmatch Hadj Hq) as [Hm | Hin].
    * left. apply marked_set_mono; assumption.
    * apply elem_of_cons in Hin as [-> | Hin]; [left | right; assumption].
      apply marked_set_same; assumption.
  - destruct Hsd as [Hm | Hin].
    + left. apply marked_set_mono; assumption.
    + apply elem_of_cons in Hin as [-> | Hin]; [left | right; assumption].
      apply marked_set_same; assumption.
Qed.

(** Marking and filling a pixel that matches, and pushing its four
    neighbours. *)
Lemma fillInv_fill st x y rest pixels' :
  fillInv cfg job c seed st ->
  pixelsToCheck st = y :: x :: rest ->
  inCanvas c (x, y) ->
  marked c (visited st) (x, y) = false ->
  matchesStart job c (data c) (x, y) = true ->
  length pixels' = length (pixels st) ->
  rgbaAt pixels' (width c) (x, y) = fillSource cfg job (x, y) ->
  (forall q, inCanvas c q -> q <> (x, y) ->
     rgbaAt pixels' (width c) q = rgbaAt (pixels st) (width c) q) ->
  fillInv cfg job c seed
    (mkFillLoop pixels' (<[Z.to_nat (cellIndex c (x, y)) := 1]> (visited st))
       ((y - 1) :: x :: (y + 1) :: x :: y :: (x - 1) :: y :: (x + 1) :: rest)).
Proof.
  intros [Hpl Hvl Hpx Hsound Hwork Hclosed Hsd] Hstack Hp0 Hun Hyes Hlen Hnew Hold.
  rewrite Hstack in Hwork, Hclosed, Hsd. cbn [worklistPixels] in Hwork, Hclosed, Hsd.
  assert (Hreg0 : fillRegion c seed (x, y)).
  { apply Hwork; [apply elem_of_cons; auto | assumption | assumption]. }
  constructor; cbn [pixels visited pixelsToCheck worklistPixels].
  - congruence.
  - rewrite length_insert. assumption.
  - intros q Hq. destruct (decide (q = (x, y))) as [->|Hne].
    + rewrite marked_set_same, Hyes by assumption. exact Hnew.
    + rewrite marked_set_other, Hold by assumption. apply Hpx. assumption.
  - intros q Hq Hm Hmatch. destruct (decide (q = (x, y))) as [->|Hne]; [assumption|].
    rewrite marked_set_other in Hm by assumption. auto.
  - intros q Hin Hq Hmatch.
    assert (Hgrow : adjacent (x, y) q -> fillRegion c seed q).
    { intros Hadj. apply (region_grow c seed (x, y) q); try assumption.
      apply matchesStart_spec; assumption. }
    rewrite !elem_of_cons in Hin.
    destruct Hin as [-> | [-> | [-> | [-> | Hin]]]].
    + apply Hgrow. unfold adjacent. cbn [fst snd]. auto.
    + apply Hgrow. unfold adjacent. cbn [fst snd]. auto.
    + apply Hgrow. unfold adjacent. cbn [fst snd]. auto.
    + apply Hgrow. unfold adjacent. cbn [fst snd]. auto.
    + apply Hwork; [apply elem_of_cons; auto | assumption | assumption].
  - intros p q Hp Hmp Hmatch Hadj Hq.
    destruct (decide (p = (x, y))) as [->|Hne].
    + right. rewrite !elem_of_cons. unfold adjacent in Hadj. cbn [fst snd] in Hadj.
      destruct Hadj as [-> | [-> | [-> | ->]]]; auto.
    + rewrite marked_set_other in Hmp by assumption.
      destruct (Hclosed p q Hp Hmp Hmatch Hadj Hq) as [Hm | Hin].
      * left. apply marked_set_mono; assumption.
      * apply elem_of_cons in Hin as [-> | Hin].
        -- left. apply marked_set_same; assumption.
        -- right. rewrite !elem_of_cons. auto.
  - destruct Hsd as [Hm | Hin].
    + left. apply marked_set_mono; assumption.
    + apply elem_of_cons in Hin as [-> | Hin].
      * left. apply marked_set_same; assumption.
      * right. rewrite !elem_of_cons. auto.
Qed.

(** The invariant holds when the loop starts. *)
Lemma fillInv_start :
  fillInv cfg job c seed
    (mkFillLoop (data c) (repeat 0 (Z.to_nat (width c * height c)))
                [snd seed; fst seed]).
Proof.
  assert (Hun : forall p, marked c (repeat 0 (Z.to_nat (width c * height c))) p = false).
  { intros p. unfold marked, jsGet, truthy.
    destruct (cellIndex c p <? 0); [reflexivity|].
    destruct (repeat 0 (Z.to_nat (width c * height c)) !! Z.to_nat (cellIndex c p))
      as [u|] eqn:Hu; [|reflexivity].
    apply list_elem_of_lookup_2, list_elem_of_In, repeat_spec in Hu. subst u. reflexivity. }
  constructor; cbn [pixels visited pixelsToCheck worklistPixels].
  - reflexivity.
  - rewrite repeat_length. destruct Hwf as (Hw & Hh & _). nia.
  - intros p Hp. rewrite Hun. reflexivity.
  - intros p Hp Hm. rewrite Hun in Hm. discriminate.
  - intros q Hin _ _. apply elem_of_cons in Hin as [-> | Hin].
    + destruct seed. apply region_seed. assumption.
    + apply elem_of_nil in Hin. contradiction.
  - intros p q Hp Hm. rewrite Hun in Hm. discriminate.
  - right. destruct seed. apply elem_of_cons. auto.
Qed.

Lemma write_pixel_props l x y c0 c1 c2 c3 :
  inCanvas c (x, y) -> length l = length (data c) ->
  let pos := cellIndex c (x, y) * 4 in
  let l' := jsSet (jsSet (jsSet (jsSet l pos c0) (pos + 1) c1) (pos + 2) c2) (pos + 3) c3 in
  length l' = length l /\
  rgbaAt l' (width c) (x, y)
    = (Some (clamp8 c0), Some (clamp8 c1), Some (clamp8 c2), Some (clamp8 c3)) /\
  (forall q, inCanvas c q -> q <> (x, y) -> rgbaAt l' (width c) q = rgbaAt l (width c) q).
Proof.
  intros Hp Hlen pos l'.
  destruct (pixel_in_raster (x, y) Hp) as [H0 H3].
  split; [|split].
  - unfold l'. rewrite !jsSet_length. reflexivity.
  - apply (rgbaAt_written l (width c) (x, y)); fold (cellIndex c (x, y)); lia.
  - intros q Hq Hne. apply (rgbaAt_elsewhere l (width c) (x, y) q).
    intros Heq. apply Hne. apply cellIndex_inj; assumption.
Qed.

(** One round of the loop keeps the invariant. *)
Lemma floodStep_inv st :
  fillInv cfg job c seed st -> fillInv cfg job c seed (floodStep cfg job st).
Proof.
  intros Hinv. unfold floodStep. rewrite Hjw, Hjh.
  destruct (pixelsToCheck st) as [|y [|x rest]] eqn:Hstack.
  - apply fillInv_drop; [assumption | |]; rewrite Hstack; cbn [worklistPixels]; auto.
  - apply fillInv_drop; [assumption | |]; rewrite Hstack; cbn [worklistPixels]; auto.
  - destruct ((x <? 0) || (x >=? width c) || (y <? 0) || (y >=? height c)) eqn:Hb.
    { apply fillInv_drop; [assumption | |]; rewrite Hstack; cbn [worklistPixels].
      - intros q Hin. apply elem_of_cons in Hin as [-> | Hin]; [|auto].
        right. left. apply outside_not_inCanvas. assumption.
      - intros q Hin. apply elem_of_cons. auto. }
    assert (Hp0 : inCanvas c (x, y)) by (apply inside_inCanvas; assumption).
    change (y * width c + x) with (cellIndex c (x, y)).
    change (truthy (jsGet (visited st) (cellIndex c (x, y))))
      with (marked c (visited st) (x, y)).
    destruct (marked c (visited st) (x, y)) eqn:Hm.
    { apply fillInv_drop; [assumption | |]; rewrite Hstack; cbn [worklistPixels].
      - intros q Hin. apply elem_of_cons in Hin as [-> | Hin]; auto.
      - intros q Hin. apply elem_of_cons. auto. }
    change (sameRead (jsGet (pixels st) (cellIndex c (x, y) * 4)) (startR job)
            && sameRead (jsGet (pixels st) (cellIndex c (x, y) * 4 + 1)) (startG job)
            && sameRead (jsGet (pixels st) (cellIndex c (x, y) * 4 + 2)) (startB job)
            && sameRead (jsGet (pixels st) (cellIndex c (x, y) * 4 + 3)) (startA job))
      with (matchesStart job c (pixels st) (x, y)).
    assert (Hsame : rgbaAt (pixels st) (width c) (x, y) = rgbaAt (data c) (width c) (x, y)).
    { rewrite (inv_pixels _ _ _ _ _ Hinv) by assumption. rewrite Hm. reflexivity. }
    rewrite (matchesStart_ext _ _ _ Hsame).
    destruct (matchesStart job c (data c) (x, y)) eqn:Hmatch.
    + assert (Hlen := inv_pixels_len _ _ _ _ _ Hinv).
      destruct (fillPattern cfg) eqn:Hfp.
      1: { destruct (write_pixel_props (pixels st) x y (fillR job) (fillG job)
                       (fillB job) (fillA job) Hp0 Hlen) as (Hl & Hw & Ho).
           apply fillInv_fill; try assumption.
           rewrite Hw. unfold fillSource. rewrite Hfp. reflexivity. }
      all: destruct Hpat as [Hsolid | [pc Hpc]]; [congruence|];
           rewrite Hpc;
           match goal with
           | |- context [jsSet (jsSet (jsSet (jsSet _ _ ?c0) _ ?c1) _ ?c2) _ ?c3] =>
               destruct (write_pixel_props (pixels st) x y c0 c1 c2 c3 Hp0 Hlen)
                 as (Hl & Hw & Ho)
           end;
           apply fillInv_fill; try assumption;
           rewrite Hw; unfold fillSource; rewrite Hfp, Hpc; reflexivity.
    + apply fillInv_skip; assumption.
Qed.

(** Every round with work left lowers the measure. *)
Lemma floodStep_measure st :
  Z.of_nat (length (visited st)) = width c * height c ->
  pixelsToCheck st <> [] ->
  (fillMeasure (floodStep cfg job st) < fillMeasure st)%nat.
Proof.
  intros Hvl Hne. unfold floodStep, fillMeasure. rewrite Hjw, Hjh.
  destruct (pixelsToCheck st) as [|y [|x rest]] eqn:Hstack; [congruence| |].
  - cbn [pixelsToCheck visited length Nat.div2]. lia.
  - destruct ((x <? 0) || (x >=? width c) || (y <? 0) || (y >=? height c)) eqn:Hb.
    { cbn [pixelsToCheck visited length Nat.div2]. lia. }
    assert (Hp0 : inCanvas c (x, y)) by (apply inside_inCanvas; assumption).
    change (y * width c + x) with (cellIndex c (x, y)).
    change (truthy (jsGet (visited st) (cellIndex c (x, y))))
      with (marked c (visited st) (x, y)).
    destruct (marked c (visited st) (x, y)) eqn:Hm.
    { cbn [pixelsToCheck visited length Nat.div2]. lia. }
    assert (Hz := countZeros_mark (visited st) (Z.to_nat (cellIndex c (x, y)))
                    (unmarked_is_zero _ _ Hp0 Hvl Hm)).
    match goal with |- context [if ?b then _ else _] => destruct b end;
      cbn [pixelsToCheck visited length Nat.div2]; lia.
Qed.

(** With fuel for the measure, the loop runs until the worklist is empty
    and the invariant still holds. *)
Lemma floodLoop_completes fuel st :
  fillInv cfg job c seed st ->
  (fillMeasure st <= fuel)%nat ->
  fillInv cfg job c seed (floodLoop fuel cfg job st) /\
  pixelsToCheck (floodLoop fuel cfg job st) = [].
Proof.
  revert st. induction fuel as [|fuel IH]; intros st Hinv Hfuel; cbn [floodLoop].
  - split; [assumption|].
    unfold fillMeasure in Hfuel.
    destruct (pixelsToCheck st) as [|y [|x rest]]; [reflexivity| |];
      cbn [length Nat.div2] in Hfuel; lia.
  - destruct (pixelsToCheck st) as [|y rest] eqn:Hstack; [auto|].
    apply IH; [apply floodStep_inv; assumption|].
    assert (fillMeasure (floodStep cfg job st) < fillMeasure st)%nat; [|lia].
    apply floodStep_measure; [apply (inv_visited_len _ _ _ _ _ Hinv) | congruence].
Qed.

(** With the worklist empty the marked matching pixels are the region. *)
Lemma fillInv_final st p :
  fillInv cfg job c seed st -> pixelsToCheck st = [] ->
  inCanvas c p ->
  (fillRegion c seed p <->
   marked c (visited st) p && matchesStart job c (data c) p = true).
Proof.
  intros Hinv Hdone Hp.
  assert (Hsd := inv_seed _ _ _ _ _ Hinv).
  assert (Hclosed := inv_closed _ _ _ _ _ Hinv).
  rewrite Hdone in Hsd, Hclosed. cbn [worklistPixels] in Hsd, Hclosed.
  split.
  - intros Hreg. clear Hp.
    induction Hreg as [Hs | p q Hreg IH Hadj Hq Hcol].
    + apply andb_true_iff. split.
      * destruct Hsd as [Hm | Hin]; [assumption | apply elem_of_nil in Hin; contradiction].
      * apply matchesStart_spec. reflexivity.
    + apply andb_true_iff in IH as [Hm Hmatch].
      assert (Hp : inCanvas c p) by (destruct Hreg; assumption).
      apply andb_true_iff. split.
      * destruct (Hclosed p q Hp Hm Hmatch Hadj Hq) as [Hmq | Hin];
          [assumption | apply elem_of_nil in Hin; contradiction].
      * apply matchesStart_spec. assumption.
  - intros H. apply andb_true_iff in H as [Hm Hmatch].
    apply (inv_sound _ _ _ _ _ Hinv); assumption.
Qed.

End FloodInvariant.

Section FloodTheorems.
Open Scope Z_scope.

Lemma sameAsFill_spec cfg c startX startY fillColor :
  sameAsFill cfg c startX startY fillColor = true <->
  pixelOf c (seedOf startX startY) = fillTarget cfg fillColor.
Proof.
  unfold sameAsFill, pixelOf, rgbaAt, fillTarget, seedOf. cbn [fst snd].
  rewrite !andb_true_iff, !readIs_eq. split.
  - intros [[[-> ->] ->] ->]. reflexivity.
  - intros H. injection H as -> -> -> ->. auto.
Qed.

Lemma fillJobOf_consistent env cfg rng c startX startY fillColor :
  let job := fillJobOf env cfg rng c startX startY fillColor in
  jobWidth job = width c /\ jobHeight job = height c /\
  (startR job, startG job, startB job, startA job) = pixelOf c (seedOf startX startY) /\
  (fillPattern cfg = Solid \/ exists pc, patternCanvas job = Some pc).
Proof.
  cbn. repeat split. destruct (fillPattern cfg); eauto.
Qed.

(** The loop of a fill from a seed inside the canvas runs to an empty
    worklist within its fuel, keeping the invariant. *)
Lemma floodFillRun_completes env cfg rng c startX startY fillColor :
  wellFormed c -> inCanvas c (seedOf startX startY) ->
  let st := floodFillRun env cfg rng c startX startY fillColor in
  fillInv cfg (fillJobOf env cfg rng c startX startY fillColor) c
          (seedOf startX startY) st /\
  pixelsToCheck st = [].
Proof.
  intros Hwf Hseed.
  destruct (fillJobOf_consistent env cfg rng c startX startY fillColor)
    as (Hjw & Hjh & Hstart & Hpat).
  unfold floodFillRun.
  apply (floodLoop_completes cfg _ c (seedOf startX startY)); try assumption.
  - apply (fillInv_start cfg _ c (seedOf startX startY)); assumption.
  - unfold fillMeasure, floodFuel. cbn [visited pixelsToCheck length Nat.div2].
    rewrite countZeros_repeat.
    replace (4 * width c * height c) with (4 * (width c * height c)) by ring.
    lia.
Qed.

(** What the call leaves at each canvas pixel when the guard lets the
    fill through. *)
Lemma floodFill_pixels env cfg rng c startX startY fillColor :
  wellFormed c -> inCanvas c (seedOf startX startY) ->
  pixelOf c (seedOf startX startY) <> fillTarget cfg fillColor ->
  let seed := seedOf startX startY in
  let job := fillJobOf env cfg rng c startX startY fillColor in
  let c' := floodFill env cfg rng c startX startY fillColor in
  width c' = width c /\ height c' = height c /\
  length (data c') = length (data c) /\
  (forall p, inCanvas c p -> fillRegion c seed p -> pixelOf c' p = fillSource cfg job p) /\
  (forall p, inCanvas c p -> ~ fillRegion c seed p -> pixelOf c' p = pixelOf c p) /\
  (forall p, inCanvas c p -> fillRegion c seed p \/ ~ fillRegion c seed p).
Proof.
  intros Hwf Hseed Hdiff seed job c'.
  destruct (fillJobOf_consistent env cfg rng c startX startY fillColor)
    as (Hjw & Hjh & Hstart & Hpat).
  destruct (floodFillRun_completes env cfg rng c startX startY fillColor Hwf Hseed)
    as [Hinv Hdone].
  assert (Hc' : c' = mkCanvas (width c) (height c)
                       (pixels (floodFillRun env cfg rng c startX startY fillColor))).
  { unfold c', floodFill.
    destruct (sameAsFill cfg c startX startY fillColor) eqn:Hguard; [|reflexivity].
    apply sameAsFill_spec in Hguard. contradiction. }
  assert (Hfin := fun p => fillInv_final cfg job c seed Hstart _ p Hinv Hdone).
  rewrite Hc'. unfold pixelOf. cbn [width height data].
  split; [reflexivity|]. split; [reflexivity|].
  split; [apply (inv_pixels_len _ _ _ _ _ Hinv)|].
  split; [|split].
  - intros p Hp Hreg. rewrite (inv_pixels _ _ _ _ _ Hinv) by assumption.
    apply (Hfin p Hp) in Hreg. fold job. rewrite Hreg. reflexivity.
  - intros p Hp Hreg. rewrite (inv_pixels _ _ _ _ _ Hinv) by assumption.
    fold job.
    destruct (marked c _ p && matchesStart job c (data c) p) eqn:Hb; [|reflexivity].
    exfalso. apply Hreg. apply (Hfin p Hp). assumption.
  - intros p Hp.
    destruct (marked c (visited (floodFillRun env cfg rng c startX startY fillColor)) p
              && matchesStart job c (data c) p) eqn:Hb.
    + left. apply (Hfin p Hp). assumption.
    + right. intros Hreg. apply (Hfin p Hp) in Hreg. congruence.
Qed.

Lemma fillRegion_colour c seed p :
  fillRegion c seed p -> pixelOf c p = pixelOf c seed.
Proof. intros [Hs | q r _ _ _ Hcol]; [reflexivity | assumption]. Qed.

Lemma clamp8_byte v : 0 <= v <= 255 -> clamp8 v = v.
Proof. unfold clamp8. lia. Qed.

Lemma fillAlpha_byte cfg :
  (0 <= opacity cfg <= 1)%R -> 0 <= Zfloor (opacity cfg * 255) <= 255.
Proof.
  intros Hop. split.
  - apply Zfloor_lub. cbn. lra.
  - assert (H := Zfloor_le (opacity cfg * 255) 255 ltac:(lra)).
    rewrite ZfloorZ in H. exact H.
Qed.

End FloodTheorems.

Section FloodClaims.
Open Scope Z_scope.

(** C1 (amended): for a seed inside the canvas whose RGBA differs from the
    target colour and alpha, the fill loop empties its worklist within its
    bound and the call rewrites exactly the maximal 4-connected region of
    pixels carrying the seed's original RGBA: each of them gets the fill
    colour, or the pattern tile's pixel at [(x mod tileW, y mod tileH)],
    and every pixel outside the region keeps its value.  For a solid fill
    with a byte colour and an opacity in [0, 1] the pixels that differ
    afterwards are exactly those of the region. *)
Theorem floodFill_fills_exactly_region env cfg rng c startX startY fillColor :
  wellFormed c ->
  inCanvas c (seedOf startX startY) ->
  pixelOf c (seedOf startX startY) <> fillTarget cfg fillColor ->
  let seed := seedOf startX startY in
  let job := fillJobOf env cfg rng c startX startY fillColor in
  let c' := floodFill env cfg rng c startX startY fillColor in
  pixelsToCheck (floodFillRun env cfg rng c startX startY fillColor) = [] /\
  width c' = width c /\ height c' = height c /\
  (forall p, inCanvas c p -> fillRegion c seed p -> pixelOf c' p = fillSource cfg job p) /\
  (forall p, inCanvas c p -> ~ fillRegion c seed p -> pixelOf c' p = pixelOf c p) /\
  (fillPattern cfg = Solid -> byteColor fillColor -> (0 <= opacity cfg <= 1)%R ->
   changesExactlyRegion c c' seed).
Proof.
  intros Hwf Hseed Hdiff seed job c'.
  destruct (floodFillRun_completes env cfg rng c startX startY fillColor Hwf Hseed)
    as [_ Hdone].
  destruct (floodFill_pixels env cfg rng c startX startY fillColor Hwf Hseed Hdiff)
    as (Hw & Hh & _ & Hin & Hout & Hdec).
  fold seed job c' in Hw, Hh, Hin, Hout, Hdec.
  repeat (split; [assumption|]).
  intros Hsolid (Hr & Hg & Hb) Hop p Hp. split.
  - intros Hchanged. destruct (Hdec p Hp) as [Hreg | Hreg]; [assumption|].
    exfalso. apply Hchanged. apply Hout; assumption.
  - intros Hreg Heq. rewrite (Hin p Hp Hreg) in Heq.
    apply Hdiff. fold seed. rewrite <- (fillRegion_colour c seed p Hreg), <- Heq.
    unfold fillSource, fillTarget. rewrite Hsolid. cbn [fillR fillG fillB fillA job fillJobOf].
    rewrite !clamp8_byte by (assumption || apply fillAlpha_byte; assumption).
    reflexivity.
Qed.

(** The guard: a seed that already carries the target colour and alpha. *)
Lemma floodFill_guarded env cfg rng c startX startY fillColor :
  pixelOf c (seedOf startX startY) = fillTarget cfg fillColor ->
  floodFill env cfg rng c startX startY fillColor = c /\
  floodFillDraws cfg c startX startY fillColor = 0%nat.
Proof.
  intros H. apply sameAsFill_spec in H.
  unfold floodFill, floodFillDraws. rewrite H. auto.
Qed.




End FloodClaims.

(** ** Concrete runs of the fill *)

Lemma seedOf_origin : seedOf 0 0 = (0, 0)%Z.
Proof. unfold seedOf. rewrite (ZfloorZ 0). reflexivity. Qed.

Lemma fillAlpha_default : Zfloor (0.7 * 255) = 178%Z.
Proof. apply Zfloor_eq. lra. Qed.

Lemma fillTarget_cyan :
  fillTarget fillConfig cyanGlow = (Some 107, Some 181, Some 199, Some 178)%Z /\
  fillTarget dotsFillConfig cyanGlow = (Some 107, Some 181, Some 199, Some 178)%Z.
Proof.
  unfold fillTarget. cbn [opacity fillConfig dotsFillConfig red green blue cyanGlow].
  rewrite fillAlpha_default. split; reflexivity.
Qed.

Lemma paintAll_idle ps w h d :
  paintAll idleBrowser ps (mkCanvas w h d) = mkCanvas w h d.
Proof.
  unfold paintAll. induction ps as [|p ps IH]; cbn [fold_left]; [reflexivity|].
  exact IH.
Qed.

(** Filling the left background pixel of the stripe with cyan at opacity
    0.7: the white pixel stops the fill, the right pixel is not reached. *)
Example floodFill_stripe :
  floodFill idleBrowser fillConfig 0 stripeCanvas 0 0 cyanGlow =
  mkCanvas 3 1 [107; 181; 199; 178;  255; 255; 255; 255;  10; 10; 10; 255]%Z.
Proof.
  unfold floodFill, floodFillRun, fillJobOf, sameAsFill.
  cbn [opacity fillConfig]. rewrite fillAlpha_default, (ZfloorZ 0).
  vm_compute. reflexivity.
Qed.

Lemma solid_2x1_facts r g b al :
  let c := solidCanvas 2 1 r g b al in
  wellFormed c /\ inCanvas c (seedOf 0 0) /\ inCanvas c (0, 0)%Z /\
  pixelOf c (seedOf 0 0) = (Some r, Some g, Some b, Some al).
Proof.
  intros c. rewrite seedOf_origin. repeat split; cbn; lia.
Qed.

(** A 2 x 1 background canvas filled with cyan from its left pixel. *)
Lemma floodFill_fills_exactly_region_witness :
  let c := solidCanvas 2 1 10 10 10 255 in
  let c' := floodFill idleBrowser fillConfig 0 c 0 0 cyanGlow in
  (wellFormed c /\ inCanvas c (seedOf 0 0) /\
   pixelOf c (seedOf 0 0) <> fillTarget fillConfig cyanGlow) /\
  pixelsToCheck (floodFillRun idleBrowser fillConfig 0 c 0 0 cyanGlow) = [] /\
  changesExactlyRegion c c' (seedOf 0 0).
Proof.
  intros c c'.
  destruct (solid_2x1_facts 10 10 10 255) as (Hwf & Hseed & _ & Hpix). fold c in Hwf, Hseed, Hpix.
  assert (Hdiff : pixelOf c (seedOf 0 0) <> fillTarget fillConfig cyanGlow).
  { rewrite Hpix, (proj1 fillTarget_cyan). discriminate. }
  split; [auto|].
  destruct (floodFill_fills_exactly_region idleBrowser fillConfig 0 c 0 0 cyanGlow
              Hwf Hseed Hdiff) as (Hdone & _ & _ & _ & _ & Hexact).
  split; [exact Hdone|].
  apply Hexact.
  - reflexivity.
  - unfold byteColor. cbn. lia.
  - cbn. lra.
Defined.

(** C1 as the specification words it fails when the seed already carries
    the target colour and alpha: on a 2 x 1 canvas of cyan at alpha 178 the
    region of the seed is the whole canvas, yet the call returns at its
    guard and no pixel changes -- for the solid fill, and for the dots
    pattern too, whose tile pixel differs from what the canvas holds. *)
Lemma floodFill_filled_seed_not_changed :
  let c := solidCanvas 2 1 107 181 199 178 in
  wellFormed c /\ inCanvas c (seedOf 0 0) /\
  fillRegion c (seedOf 0 0) (0, 0)%Z /\
  floodFill idleBrowser fillConfig 0 c 0 0 cyanGlow = c /\
  ~ changesExactlyRegion c (floodFill idleBrowser fillConfig 0 c 0 0 cyanGlow) (seedOf 0 0) /\
  floodFill idleBrowser dotsFillConfig 0 c 0 0 cyanGlow = c /\
  ~ changesExactlyRegion c (floodFill idleBrowser dotsFillConfig 0 c 0 0 cyanGlow)
      (seedOf 0 0) /\
  fillSource dotsFillConfig (fillJobOf idleBrowser dotsFillConfig 0 c 0 0 cyanGlow) (0, 0)%Z
    <> pixelOf c (0, 0)%Z.
Proof.
  intros c.
  destruct (solid_2x1_facts 107 181 199 178) as (Hwf & Hseed & Hp0 & Hpix).
  fold c in Hwf, Hseed, Hp0, Hpix.
  assert (Hreg : fillRegion c (seedOf 0 0) (0, 0)%Z).
  { rewrite seedOf_origin. apply region_seed. assumption. }
  assert (Hsolid : floodFill idleBrowser fillConfig 0 c 0 0 cyanGlow = c).
  { apply floodFill_guarded. rewrite Hpix, (proj1 fillTarget_cyan). reflexivity. }
  assert (Hdots : floodFill idleBrowser dotsFillConfig 0 c 0 0 cyanGlow = c).
  { apply floodFill_guarded. rewrite Hpix, (proj2 fillTarget_cyan). reflexivity. }
  assert (Hnot : ~ changesExactlyRegion c c (seedOf 0 0)).
  { intros H. apply (H (0, 0)%Z Hp0); [assumption | reflexivity]. }
  split; [exact Hwf|]. split; [exact Hseed|]. split; [exact Hreg|].
  split; [exact Hsolid|]. split; [rewrite Hsolid; exact Hnot|].
  split; [exact Hdots|]. split; [rewrite Hdots; exact Hnot|].
  unfold fillSource, fillJobOf, createPatternCanvas, blankTile.
  cbn [fillPattern dotsFillConfig patternCanvas].
  rewrite paintAll_idle. intros H. vm_compute in H. discriminate H.
Qed.



(** Under a vertical mirror the same kind of click is not a no-op on the
    pixels either: on the 4 x 1 canvas a click on the cyan pixel (3, 0)
    returns at the guard for the real seed, and the mirrored instance of
    the click then fills the background pixels from the seed (1, 0). *)
Example fill_click_mirror_fills_reflection :
  let a := mountedApp filledEndCanvas in
  let a' := startDrawing idleBrowser mirrorFillConfig 3 0 a in
  pixelOf (canvas a) (seedOf 3 0) = fillTarget mirrorFillConfig cyanGlow /\
  floodFill idleBrowser mirrorFillConfig 0 (canvas a) 3 0 cyanGlow = canvas a /\
  canvas a' = solidCanvas 4 1 107 181 199 178 /\
  pixelOf (canvas a') (1, 0)%Z <> pixelOf (canvas a) (1, 0)%Z.
Proof.
  intros a a'.
  assert (Hseed : seedOf 3 0 = (3, 0)%Z).
  { unfold seedOf. rewrite (ZfloorZ 3), (ZfloorZ 0). reflexivity. }
  assert (Htarget : fillTarget mirrorFillConfig cyanGlow
                    = (Some 107, Some 181, Some 199, Some 178)%Z).
  { unfold fillTarget. cbn [opacity mirrorFillConfig red green blue cyanGlow].
    rewrite fillAlpha_default. reflexivity. }
  assert (Hsame : pixelOf (canvas a) (seedOf 3 0) = fillTarget mirrorFillConfig cyanGlow).
  { rewrite Hseed, Htarget. reflexivity. }
  destruct (floodFill_guarded idleBrowser mirrorFillConfig 0 (canvas a) 3 0 cyanGlow Hsame)
    as [Hfill Hdraws].
  assert (Hcanvas : canvas a' = solidCanvas 4 1 107 181 199 178).
  { unfold a', startDrawing. cbn [isDraggingPanel fillMode mirrorFillConfig].
    rewrite applySymmetry_mirror by reflexivity.
    cbn [commit withHist withCanvas canvas rngPos selectedColor mirrorAngle mirrorFillConfig].
    change (rngPos a) with 0%nat. rewrite Hfill, Hdraws.
    rewrite mirrorPoint_vertical. cbn [fst snd canvas a mountedApp width filledEndCanvas].
    unfold floodFill, floodFillRun, fillJobOf, sameAsFill.
    cbn [opacity mirrorFillConfig]. rewrite fillAlpha_default, (ZfloorZ 0).
    replace (Zfloor (2 * (4 / 2) - 3)) with 1%Z by (symmetry; apply Zfloor_eq; lra).
    vm_compute. reflexivity. }
  split; [exact Hsame|]. split; [exact Hfill|]. split; [exact Hcanvas|].
  rewrite Hcanvas. intros H. vm_compute in H. discriminate H.
Qed.

(** A fine-line stroke from (1, 1) to (2, 2) on a 4 x 4 canvas under a
    vertical mirror. *)
Lemma draw_brush_path_lastPos_witness :
  let a := strokingApp (solidCanvas 4 4 10 10 10 255) (1, 1)%R in
  lastPos (applySymmetry mirrorFineConfig (width (canvas a)) (height (canvas a)) 2 2
             (brushBranch idleBrowser mirrorFineConfig 2 2) a) = lastPos a /\
  draw idleBrowser mirrorFineConfig 2 2 a =
    withLastPos (2, 2)%R
      (applySymmetry mirrorFineConfig (width (canvas a)) (height (canvas a)) 2 2
         (brushBranch idleBrowser mirrorFineConfig 2 2) a) /\
  lastPos (draw idleBrowser mirrorFineConfig 2 2 a) = (2, 2)%R.
Proof.
  intros a.
  apply (draw_brush_path_lastPos idleBrowser mirrorFineConfig 2 2 a); reflexivity.
Defined.

(* ===================================================================== *)
(** * Part IV.  Further properties of the code                            *)
(* ===================================================================== *)

(** ** History manager *)

Section HistoryMore.
Context {Snap : Type}.
Implicit Types (h : Hist Snap) (s : Snap).

Lemma saveToHistory_stack s h :
  undoHistory (saveToHistory (Some s) h) =
  drop (length (undoHistory h ++ [s]) - maxUndoSteps) (undoHistory h ++ [s]) \/
  (maxUndoSteps + 1 < length (undoHistory h ++ [s]))%nat.
Proof.
  unfold saveToHistory. cbn [undoHistory].
  destruct (Nat.ltb_spec maxUndoSteps (length (undoHistory h ++ [s]))) as [Hover|Hfit].
  - destruct (Nat.eq_dec (length (undoHistory h ++ [s])) (maxUndoSteps + 1)) as [Heq|Hne].
    + left. rewrite Heq. replace (maxUndoSteps + 1 - maxUndoSteps)%nat with 1%nat by lia.
      destruct (undoHistory h ++ [s]); reflexivity.
    + right. lia.
  - left. replace (length (undoHistory h ++ [s]) - maxUndoSteps)%nat with 0%nat by lia.
    reflexivity.
Qed.

(** X1: undo right after a commit, with the stack below its cap, gives the
    history back as it was before the commit and schedules the restore of
    the snapshot that was the newest then. *)
Theorem undo_after_commit s h :
  histInv h ->
  (length (undoHistory h) < maxUndoSteps)%nat ->
  undo (saveToHistory (Some s) h) = (h, last (undoHistory h)).
Proof.
  intros [[Hlo _] Hflag] Hroom. destruct h as [l flag]. cbn [undoHistory canUndo] in *.
  unfold saveToHistory. cbn [undoHistory].
  destruct (Nat.ltb_spec maxUndoSteps (length (l ++ [s]))) as [Hover|_].
  { rewrite length_app in Hover. cbn [length] in Hover. lia. }
  unfold undo. cbn [undoHistory].
  destruct (Nat.leb_spec (length (l ++ [s])) 1) as [Hone|_].
  { rewrite length_app in Hone. cbn [length] in Hone. lia. }
  rewrite removelast_last, Hflag. reflexivity.
Qed.

(** X2: the stack is a first-in first-out window: after any commits on top
    of the baseline it holds the newest 20 of the snapshots pushed so far,
    oldest first. *)
Theorem commits_keep_newest (blank : Snap) (cs : list Snap) :
  undoHistory (commits cs (initHist blank)) =
  drop (length (blank :: cs) - 20) (blank :: cs).
Proof.
  assert (Hgen : forall (cs : list Snap) h,
            (length (undoHistory h) <= maxUndoSteps)%nat ->
            undoHistory (commits cs h) =
            drop (length (undoHistory h ++ cs) - maxUndoSteps) (undoHistory h ++ cs)).
  { clear cs. induction cs as [|c cs IH]; intros h Hh.
    - cbn [commits histRun map fold_left]. rewrite app_nil_r.
      replace (length (undoHistory h) - maxUndoSteps)%nat with 0%nat by lia. reflexivity.
    - change (commits (c :: cs) h) with (commits cs (saveToHistory (Some c) h)).
      assert (Hlen := saveToHistory_length c h).
      rewrite IH by (rewrite Hlen; unfold maxUndoSteps in *; lia).
      destruct (saveToHistory_stack c h) as [Hst | Hbig].
      2: { rewrite length_app in Hbig. cbn [length] in Hbig. lia. }
      rewrite Hst.
      assert (Hk : (length (undoHistory h ++ [c]) - maxUndoSteps
                    <= length (undoHistory h ++ [c]))%nat) by lia.
      rewrite <- (drop_app_le _ cs _ Hk), drop_drop, <- app_assoc. cbn [app].
      f_equal. rewrite !length_app, length_drop, !length_app. cbn [length]. lia. }
  rewrite (Hgen cs (initHist blank)) by (cbn; unfold maxUndoSteps; lia).
  reflexivity.
Qed.

(** X3: undo removes the newest snapshot and nothing else, schedules the
    restore of the snapshot that becomes the newest, and never empties the
    stack; with a single snapshot or none it changes nothing. *)
Theorem undo_pops_newest h :
  ((length (undoHistory h) <= 1)%nat -> undo h = (h, None)) /\
  ((1 < length (undoHistory h))%nat ->
   exists popped restored,
     undoHistory h = undoHistory (fst (undo h)) ++ [popped] /\
     snd (undo h) = Some restored /\
     last (undoHistory (fst (undo h))) = Some restored /\
     canUndo (fst (undo h)) = (1 <? length (undoHistory (fst (undo h))))%nat).
Proof.
  unfold undo. split; intros Hlen.
  - destruct (Nat.leb_spec (length (undoHistory h)) 1); [reflexivity | lia].
  - destruct (Nat.leb_spec (length (undoHistory h)) 1); [lia|].
    cbn [fst snd undoHistory canUndo].
    destruct (undoHistory h) as [|s0 l] using rev_ind; [cbn in Hlen; lia|].
    rewrite removelast_last.
    rewrite length_app in Hlen. cbn [length] in Hlen.
    destruct l as [|s1 l'] using rev_ind; [cbn in Hlen; lia|].
    exists s0, s1. rewrite last_snoc. auto.
Qed.

End HistoryMore.

(** One stroke committed on the baseline, then undone. *)
Lemma undo_after_commit_witness :
  undo (saveToHistory (Some 1%nat) (initHist 0%nat)) = (initHist 0%nat, Some 0%nat).
Proof.
  apply (undo_after_commit 1%nat (initHist 0%nat)).
  - apply histInv_init.
  - cbn. unfold maxUndoSteps. lia.
Defined.

Section ClearProofs.

(** X4: clearing cannot be undone: whatever the history held, after
    [clearCanvas] it holds the cleared canvas alone, [canUndo] is off and an
    undo changes nothing; the canvas keeps its size. *)
Theorem clearCanvas_resets_history env a :
  let a' := clearCanvas env a in
  undoHistory (hist a') = [canvas a'] /\
  canUndo (hist a') = false /\
  undo (hist a') = (hist a', None) /\
  width (canvas a') = width (canvas a) /\ height (canvas a') = height (canvas a).
Proof.
  cbn. repeat split.
Qed.

End ClearProofs.

(** ** Symmetry transform *)

Section SymmetryMore.
Open Scope R_scope.

(** X5: the reflection is an isometry up to floating-point rounding: in
    exact arithmetic the segment between the reflections of two points is
    as long as the segment between the points, whatever the axis angle and
    the centre.  (The doubles of the code agree with this within rounding
    only; nothing is said of what a [Math.floor] makes of the length.) *)
Theorem mirrorPoint_isometry angle cx cy (px py qx qy : R) :
  let p' := mirrorPoint angle cx cy px py in
  let q' := mirrorPoint angle cx cy qx qy in
  distanceOf (fst q' - fst p') (snd q' - snd p') = distanceOf (qx - px) (qy - py).
Proof.
  unfold distanceOf, mirrorPoint. cbn [fst snd]. f_equal.
  set (c := cos (2 * (angle * PI / 180))).
  set (s := sin (2 * (angle * PI / 180))).
  assert (H : c * c + s * s = 1) by apply double_angle_unit.
  transitivity (((qx - px) * (qx - px) + (qy - py) * (qy - py)) * (c * c + s * s));
    [ring | rewrite H; ring].
Qed.

(** X6: the points of the axis are the reflection's fixed points up to
    floating-point rounding: in exact arithmetic a point at signed
    distance [t] from the centre along the axis direction is mapped to
    itself (the centre, [t = 0], among them).  (In the doubles of the code
    the image can be off by a rounding error, and so can its pixel.) *)
Theorem mirrorPoint_fixes_axis angle cx cy (t : R) :
  let a := angle * PI / 180 in
  mirrorPoint angle cx cy (cx + t * cos a) (cy + t * sin a)
  = (cx + t * cos a, cy + t * sin a).
Proof.
  intros a. unfold mirrorPoint. fold a.
  rewrite cos_2a, sin_2a.
  assert (H : cos a * cos a + sin a * sin a = 1) by apply double_angle_unit.
  f_equal.
  - transitivity (t * cos a * (cos a * cos a + sin a * sin a) + cx);
      [ring | rewrite H; ring].
  - transitivity (t * sin a * (cos a * cos a + sin a * sin a) + cy);
      [ring | rewrite H; ring].
Qed.

End SymmetryMore.

(** ** Pointer handlers and gestures *)

Section GestureMore.
Open Scope R_scope.

Lemma applySymmetry_keeps {S T : Type} (g : S -> T) cfg w h x y
    (f : R -> R -> S -> S) (s : S) :
  (forall sx sy s', g (f sx sy s') = g s') ->
  g (applySymmetry cfg w h x y f s) = g s.
Proof.
  intros Hf. unfold applySymmetry. destruct (symmetryMode cfg); rewrite ?Hf; reflexivity.
Qed.

(** Moves and frames leave the history and the two gesture flags alone. *)
Lemma draw_keeps env cfg x y a :
  hist (draw env cfg x y a) = hist a /\
  isDrawing (draw env cfg x y a) = isDrawing a /\
  isHolding (draw env cfg x y a) = isHolding a.
Proof.
  unfold draw.
  destruct ((negb (isDrawing a) && negb (isHolding a))
            || match shapeMode cfg with Some _ => true | None => false end); [auto|].
  destruct (bleedEnabled cfg && isHolding a); [cbn; auto|].
  destruct (blendMode cfg); cbn [withLastPos hist isDrawing isHolding];
    repeat split; apply applySymmetry_keeps; reflexivity.
Qed.

Lemma animate_keeps env cfg a :
  hist (animate env cfg a) = hist a /\
  isDrawing (animate env cfg a) = isDrawing a /\
  isHolding (animate env cfg a) = isHolding a.
Proof.
  unfold animate. destruct (negb (isHolding a) || negb (bleedEnabled cfg)); cbn; auto.
Qed.

Lemma gestureRun_keeps env cfg evs a :
  hist (gestureRun env cfg evs a) = hist a /\
  isDrawing (gestureRun env cfg evs a) = isDrawing a /\
  isHolding (gestureRun env cfg evs a) = isHolding a.
Proof.
  unfold gestureRun. revert a.
  induction evs as [|ev evs IH]; intros a; cbn [fold_left]; [auto|].
  destruct (IH (gestureStep env cfg a ev)) as (-> & -> & ->).
  destruct ev; [apply animate_keeps | apply draw_keeps].
Qed.

Lemma saveToHistory_newest {Snap : Type} (s : Snap) (h : Hist Snap) :
  last (undoHistory (saveToHistory (Some s) h)) = Some s.
Proof.
  unfold saveToHistory. cbn [undoHistory].
  destruct (Nat.ltb_spec maxUndoSteps (length (undoHistory h ++ [s])))
    as [Hover|]; [|apply last_snoc].
  destruct (undoHistory h) as [|s0 l]; cbn [app tail].
  - cbn in Hover. unfold maxUndoSteps in Hover. lia.
  - apply last_snoc.
Qed.

(** X7: [stopDrawing] is idempotent: the pointer-up and the pointer-leave
    that may follow it commit the gesture once, not twice. *)
Theorem stopDrawing_idempotent a :
  stopDrawing (stopDrawing a) = stopDrawing a.
Proof.
  unfold stopDrawing at 1. cbn [isDrawing isHolding stopDrawing withFlags orb].
  reflexivity.
Qed.

(** X9: between the pointer-down and the pointer-up nothing is committed:
    whatever frames and moves arrive, in whatever mode, the history stays
    as it was; the pointer-up of a gesture in progress then pushes exactly
    the canvas it finds. *)
Theorem gesture_commits_at_release env cfg evs a :
  isDrawing a || isHolding a = true ->
  let a1 := gestureRun env cfg evs a in
  hist a1 = hist a /\
  hist (stopDrawing a1) = saveToHistory (Some (canvas a1)) (hist a) /\
  canvas (stopDrawing a1) = canvas a1 /\
  isDrawing (stopDrawing a1) = false /\ isHolding (stopDrawing a1) = false.
Proof.
  intros Hactive a1.
  destruct (gestureRun_keeps env cfg evs a) as (Hh & Hd & Ho). fold a1 in Hh, Hd, Ho.
  split; [exact Hh|].
  unfold stopDrawing. rewrite Hd, Ho, Hactive.
  cbn [withFlags commit withHist hist canvas isDrawing isHolding].
  rewrite Hh. auto.
Qed.

(** X11: a click in fill mode never starts a gesture: the drawing and
    holding flags, the last position and the bleed state stay as they were
    and the canvas keeps its size, whatever the other modes say. *)
Theorem fill_click_starts_no_gesture env cfg x y a :
  fillMode cfg = true ->
  let a' := startDrawing env cfg x y a in
  isDrawing a' = isDrawing a /\ isHolding a' = isHolding a /\
  lastPos a' = lastPos a /\ bleedState a' = bleedState a /\
  width (canvas a') = width (canvas a) /\ height (canvas a') = height (canvas a).
Proof.
  intros Hfill a'. unfold a', startDrawing. rewrite Hfill.
  destruct (isDraggingPanel cfg); [auto 6|].
  cbn [commit withHist isDrawing isHolding lastPos bleedState canvas].
  repeat split;
    try (apply (applySymmetry_keeps (fun s => isDrawing s)); reflexivity);
    try (apply (applySymmetry_keeps (fun s => isHolding s)); reflexivity);
    try (apply (applySymmetry_keeps (fun s => lastPos s)); reflexivity);
    try (apply (applySymmetry_keeps (fun s => bleedState s)); reflexivity).
  - apply (applySymmetry_keeps (fun s => width (canvas s))). intros sx sy s'.
    cbn [withCanvas canvas]. unfold floodFill.
    destruct (sameAsFill cfg (canvas s') sx sy (selectedColor cfg)); reflexivity.
  - apply (applySymmetry_keeps (fun s => height (canvas s))). intros sx sy s'.
    cbn [withCanvas canvas]. unfold floodFill.
    destruct (sameAsFill cfg (canvas s') sx sy (selectedColor cfg)); reflexivity.
Qed.

(** One move of a plain brush stroke (no symmetry). *)
Lemma draw_plain_step env cfg x y a :
  isDrawing a = true -> shapeMode cfg = None -> bleedEnabled cfg = false ->
  blendMode cfg = false -> symmetryMode cfg = SymNone ->
  draw env cfg x y a = withLastPos (x, y) (brushBranch env cfg x y x y a).
Proof.
  intros Hd Hshape Hbleed Hblend Hsym. unfold draw.
  rewrite Hd, Hshape, Hbleed, Hblend. cbn [negb andb orb].
  rewrite applySymmetry_none by assumption. reflexivity.
Qed.

Lemma last_cons_default {A} (l : list A) (p d : A) :
  List.last (p :: l) d = List.last l p.
Proof.
  revert p d. induction l as [|b l IH]; intros p d; [reflexivity|].
  change (List.last (p :: b :: l) d) with (List.last (b :: l) d).
  rewrite (IH b d), (IH b p). reflexivity.
Qed.

(** X12: without symmetry, the moves of a brush stroke are drawn as one
    connected polyline: the calls to [drawBrushStroke] go from the last
    position at the pointer-down to the first move point, from there to the
    second, and so on, each starting where the previous one ended. *)
Theorem brush_stroke_is_polyline env cfg (pts : list Point) a :
  isDrawing a = true -> shapeMode cfg = None -> bleedEnabled cfg = false ->
  blendMode cfg = false -> symmetryMode cfg = SymNone ->
  let a' := gestureRun env cfg (map (fun p => MoveTo (fst p) (snd p)) pts) a in
  strokeTrace a' = strokeTrace a ++ polyline (lastPos a) pts /\
  lastPos a' = List.last pts (lastPos a).
Proof.
  intros Hd Hshape Hbleed Hblend Hsym. cbv zeta. unfold gestureRun.
  revert a Hd. induction pts as [|[px py] pts IH]; intros a Hd.
  - cbn. rewrite app_nil_r. auto.
  - cbn [map fold_left gestureStep fst snd polyline].
    rewrite draw_plain_step by assumption.
    set (a1 := withLastPos (px, py) (brushBranch env cfg px py px py a)).
    assert (Hd1 : isDrawing a1 = true) by exact Hd.
    destruct (IH a1 Hd1) as [Htrace Hlast].
    rewrite Htrace, Hlast.
    assert (Hstep : strokeTrace a1 = strokeTrace a ++ [(lastPos a, (px, py))]).
    { unfold a1. cbn [withLastPos strokeTrace].
      rewrite brushBranch_trace, branchLastPos_original. reflexivity. }
    rewrite Hstep, <- app_assoc. split; [reflexivity|].
    change (lastPos a1) with (px, py). symmetry. apply last_cons_default.
Qed.

(** X13: wherever a handler commits -- a fill click, a stamp click, the
    pointer-up of a gesture, a clear -- the newest snapshot of the history
    is the canvas the handler leaves on screen. *)
Theorem newest_snapshot_is_canvas env cfg x y a :
  (isDraggingPanel cfg = false ->
   fillMode cfg = true \/ (bleedEnabled cfg = false /\ shapeMode cfg <> None) ->
   last (undoHistory (hist (startDrawing env cfg x y a)))
   = Some (canvas (startDrawing env cfg x y a))) /\
  (isDrawing a || isHolding a = true ->
   last (undoHistory (hist (stopDrawing a))) = Some (canvas (stopDrawing a))) /\
  last (undoHistory (hist (clearCanvas env a))) = Some (canvas (clearCanvas env a)).
Proof.
  split; [|split].
  - intros Hpanel Hmode. unfold startDrawing. rewrite Hpanel.
    destruct (fillMode cfg) eqn:Hfill.
    + cbn [commit withHist hist canvas]. apply saveToHistory_newest.
    + destruct Hmode as [Hmode | [Hbleed Hshape]]; [discriminate|].
      rewrite Hbleed. destruct (shapeMode cfg); [|congruence].
      cbn [commit withHist hist canvas]. apply saveToHistory_newest.
  - intros Hactive. unfold stopDrawing. rewrite Hactive.
    cbn [withFlags commit withHist hist canvas]. apply saveToHistory_newest.
  - reflexivity.
Qed.

End GestureMore.

(** A fine-line stroke with a frame and two moves in between. *)
Lemma gesture_commits_at_release_witness :
  let a := strokingApp (solidCanvas 4 4 10 10 10 255) (1, 1)%R in
  let a1 := gestureRun idleBrowser mirrorFineConfig [MoveTo 2 2; Tick; MoveTo 3 1] a in
  hist a1 = hist a /\
  hist (stopDrawing a1) = saveToHistory (Some (canvas a1)) (hist a) /\
  canvas (stopDrawing a1) = canvas a1 /\
  isDrawing (stopDrawing a1) = false /\ isHolding (stopDrawing a1) = false.
Proof.
  apply (gesture_commits_at_release idleBrowser mirrorFineConfig
           [MoveTo 2 2; Tick; MoveTo 3 1]
           (strokingApp (solidCanvas 4 4 10 10 10 255) (1, 1)%R)).
  reflexivity.
Defined.

Lemma fill_click_starts_no_gesture_witness :
  let a := mountedApp (solidCanvas 2 1 10 10 10 255) in
  let a' := startDrawing idleBrowser fillConfig 0 0 a in
  isDrawing a' = isDrawing a /\ isHolding a' = isHolding a /\
  lastPos a' = lastPos a /\ bleedState a' = bleedState a /\
  width (canvas a') = width (canvas a) /\ height (canvas a') = height (canvas a).
Proof.
  apply (fill_click_starts_no_gesture idleBrowser fillConfig 0 0
           (mountedApp (solidCanvas 2 1 10 10 10 255))).
  reflexivity.
Defined.

(** Dots brush, three moves from (0, 0). *)
Lemma brush_stroke_is_polyline_witness :
  let a := strokingApp (solidCanvas 4 4 10 10 10 255) (0, 0)%R in
  let pts := [(1, 0); (2, 1); (3, 3)]%R in
  let a' := gestureRun idleBrowser dotsConfig (map (fun p => MoveTo (fst p) (snd p)) pts) a in
  strokeTrace a' = strokeTrace a ++ polyline (lastPos a) pts /\
  lastPos a' = List.last pts (lastPos a).
Proof.
  apply (brush_stroke_is_polyline idleBrowser dotsConfig [(1, 0); (2, 1); (3, 3)]%R
           (strokingApp (solidCanvas 4 4 10 10 10 255) (0, 0)%R)); reflexivity.
Defined.

Lemma newest_snapshot_is_canvas_witness :
  let a := strokingApp (solidCanvas 4 4 10 10 10 255) (1, 1)%R in
  last (undoHistory (hist (stopDrawing a))) = Some (canvas (stopDrawing a)) /\
  last (undoHistory (hist (startDrawing idleBrowser radialStampConfig 2 2 a)))
  = Some (canvas (startDrawing idleBrowser radialStampConfig 2 2 a)).
Proof.
  intros a.
  destruct (newest_snapshot_is_canvas idleBrowser radialStampConfig 2 2 a)
    as (Hstart & Hstop & _).
  split.
  - apply Hstop. reflexivity.
  - apply Hstart; [reflexivity|]. right. split; [reflexivity | discriminate].
Defined.

(** ** Bleed animator *)

Section BleedMore.
Open Scope R_scope.

Lemma bleeding_start env cfg x y a :
  0 <= brushSize cfg ->
  isDraggingPanel cfg = false -> fillMode cfg = false -> bleedEnabled cfg = true ->
  bleeding cfg (startDrawing env cfg x y a).
Proof.
  intros Hsize Hpanel Hfill Hbleed. unfold startDrawing.
  rewrite Hpanel, Hfill, Hbleed. repeat split; cbn; lra.
Qed.

Lemma bleeding_step env cfg a ev :
  bleedEnabled cfg = true ->
  bleeding cfg a -> bleeding cfg (gestureStep env cfg a ev).
Proof.
  intros Hbleed (Hhold & Hmax & Hlo & Hhi).
  destruct ev as [|x y]; cbn [gestureStep].
  - unfold animate. rewrite Hhold, Hbleed. cbn [negb orb].
    destruct (growRadius_bounds _ Hhi) as [[Hg1 Hg2] Hm].
    unfold bleeding, withCanvas, withBleed; cbn [bleedState isHolding].
    rewrite Hm. repeat split; auto; lra.
  - unfold draw. rewrite Hhold, Hbleed. cbn [negb andb orb].
    rewrite andb_false_r. cbn [orb].
    destruct (shapeMode cfg); [repeat split; auto|].
    destruct (Rlt_dec 5 _);
      unfold bleeding, withLastPos, withBleed; cbn [bleedState isHolding radius maxRadius];
      repeat split; auto.
    + apply Rmax_l.
    + apply Rmax_lub; lra.
Qed.

(** X8: from the pointer-down of a bleed up to the pointer-up, whichever
    frames and pointer moves arrive -- moves far enough to recentre the
    bleed and damp it to 70% included -- the radius stays between 0 and the
    cap [brushSize * 4] fixed at the pointer-down. *)
Theorem bleed_radius_stays_in_range env cfg x y a evs :
  0 <= brushSize cfg ->
  isDraggingPanel cfg = false -> fillMode cfg = false -> bleedEnabled cfg = true ->
  let a1 := gestureRun env cfg evs (startDrawing env cfg x y a) in
  0 <= radius (bleedState a1) <= brushSize cfg * 4 /\
  maxRadius (bleedState a1) = brushSize cfg * 4.
Proof.
  intros Hsize Hpanel Hfill Hbleed a1.
  assert (H : bleeding cfg a1).
  { unfold a1, gestureRun.
    generalize (bleeding_start env cfg x y a Hsize Hpanel Hfill Hbleed).
    generalize (startDrawing env cfg x y a). clear a1.
    induction evs as [|ev evs IH]; intros a0 H0; cbn [fold_left]; [exact H0|].
    apply IH. apply bleeding_step; assumption. }
  destruct H as (_ & Hmax & Hlo & Hhi). rewrite Hmax in Hhi. auto.
Qed.

Lemma growRadius_min st :
  radius (growRadius st) = Rmin (radius st + 1.5) (maxRadius st) /\
  maxRadius (growRadius st) = maxRadius st.
Proof.
  unfold growRadius, Rmin; cbn [radius maxRadius]. split; [|reflexivity].
  destruct (Rlt_dec (maxRadius st) (radius st + 1.5)),
           (Rle_dec (radius st + 1.5) (maxRadius st)); lra.
Qed.

Lemma animateTimes_radius env cfg k a :
  isHolding a = true -> bleedEnabled cfg = true ->
  radius (bleedState a) <= maxRadius (bleedState a) ->
  radius (bleedState (animateTimes env cfg k a))
  = Rmin (radius (bleedState a) + 1.5 * INR k) (maxRadius (bleedState a)).
Proof.
  intros Hhold Hbleed. revert a Hhold.
  induction k as [|k IH]; intros a Hhold Hle.
  - cbn [animateTimes INR]. unfold Rmin.
    destruct (Rle_dec _ _); lra.
  - cbn [animateTimes].
    assert (Hstep : animate env cfg a =
              withCanvas (paintAll env (bleedPaints env cfg (rngPos a)
                                          (growRadius (bleedState a))) (canvas a))
                         (rngPos a + bleedDraws cfg (growRadius (bleedState a)))
                         (withBleed (growRadius (bleedState a)) a)).
    { unfold animate. rewrite Hhold, Hbleed. reflexivity. }
    destruct (growRadius_min (bleedState a)) as [Hr Hm].
    rewrite IH; rewrite Hstep; unfold withCanvas, withBleed; cbn [bleedState isHolding].
    + rewrite Hr, Hm, S_INR. assert (0 <= INR k) by apply pos_INR.
      unfold Rmin.
      destruct (Rle_dec (radius (bleedState a) + 1.5) (maxRadius (bleedState a)));
        repeat match goal with |- context [Rle_dec ?u ?v] => destruct (Rle_dec u v) end;
        lra.
    + exact Hhold.
    + rewrite Hr, Hm. apply Rmin_r.
Qed.

(** X10: held still, the bleed grows by 1.5 a frame until it meets its cap:
    after a pointer-down that starts the hold (no hold was in progress, so
    the frames work on the bleed object that pointer-down installed) and
    [k] frames, the radius is [min (1.5 * k) (brushSize * 4)]. *)
Theorem bleed_radius_after_frames env cfg x y a (k : nat) :
  isHolding a = false ->
  0 <= brushSize cfg ->
  isDraggingPanel cfg = false -> fillMode cfg = false -> bleedEnabled cfg = true ->
  radius (bleedState (animateTimes env cfg k (startDrawing env cfg x y a)))
  = Rmin (1.5 * INR k) (brushSize cfg * 4).
Proof.
  intros _ Hsize Hpanel Hfill Hbleed.
  assert (Hstart : startDrawing env cfg x y a =
            withLastPos (x, y)
              (withFlags true true (withBleed (mkBleed x y 0 (brushSize cfg * 4)) a))).
  { unfold startDrawing. rewrite Hpanel, Hfill, Hbleed. reflexivity. }
  rewrite Hstart.
  rewrite animateTimes_radius; [|reflexivity|assumption|cbn; lra].
  cbn [withLastPos withFlags withBleed bleedState radius maxRadius].
  f_equal. ring.
Qed.

End BleedMore.

Lemma bleed_radius_stays_in_range_witness :
  let a1 := gestureRun idleBrowser bleedConfig [Tick; MoveTo 200 100; Tick]
              (startDrawing idleBrowser bleedConfig 100 100
                 (mountedApp (solidCanvas 4 4 10 10 10 255))) in
  (0 <= radius (bleedState a1) <= brushSize bleedConfig * 4 /\
   maxRadius (bleedState a1) = brushSize bleedConfig * 4)%R.
Proof.
  apply (bleed_radius_stays_in_range idleBrowser bleedConfig 100 100
           (mountedApp (solidCanvas 4 4 10 10 10 255)) [Tick; MoveTo 200 100; Tick]).
  - cbn. lra.
  - reflexivity.
  - reflexivity.
  - reflexivity.
Defined.

Lemma bleed_radius_after_frames_witness :
  radius (bleedState (animateTimes idleBrowser bleedConfig 4
            (startDrawing idleBrowser bleedConfig 100 100
               (mountedApp (solidCanvas 4 4 10 10 10 255)))))
  = Rmin (1.5 * INR 4) (brushSize bleedConfig * 4).
Proof.
  apply (bleed_radius_after_frames idleBrowser bleedConfig 100 100
           (mountedApp (solidCanvas 4 4 10 10 10 255)) 4).
  - reflexivity.
  - cbn. lra.
  - reflexivity.
  - reflexivity.
  - reflexivity.
Defined.

(** ** Brush stroke engine *)

Section BrushMore.
Open Scope R_scope.

Lemma segmentsLoop_count fuel ink lw last dx dy distance currentDist drawing :
  (fuel <> 0%nat -> currentDist + 5 * (INR fuel - 1) < distance) ->
  length (segmentsLoop fuel ink lw last dx dy distance currentDist drawing) =
  if drawing then Nat.div2 (S fuel) else Nat.div2 fuel.
Proof.
  revert currentDist drawing.
  induction fuel as [|fuel IH]; intros currentDist drawing Hreach.
  - destruct drawing; reflexivity.
  - assert (Hf : 0 <= INR fuel) by apply pos_INR.
    assert (Hlt : currentDist + 5 * INR fuel < distance).
    { specialize (Hreach ltac:(discriminate)). rewrite S_INR in Hreach. lra. }
    cbn [segmentsLoop].
    destruct (Rlt_dec currentDist distance) as [_|Hno]; [|lra].
    assert (Hnext : fuel <> 0%nat -> currentDist + 5 + 5 * (INR fuel - 1) < distance)
      by (intros _; lra).
    destruct drawing; cbn [negb length]; rewrite IH by exact Hnext; reflexivity.
Qed.

(** X14: the segments brush walks the segment in 5px steps, alternately
    drawing and skipping, starting with a dash: over [n = ceil(distance /
    5)] steps it strokes [ceil(n / 2)] dashes, none for a zero-length
    segment. *)
Theorem segments_dash_count env cfg rng last x y :
  brushMode cfg = Segments ->
  length (brushStrokePaints env cfg rng last x y) =
  Nat.div2 (S (Z.to_nat (Zceil (segmentLength last x y / 5)))).
Proof.
  intros Hm. unfold brushStrokePaints. rewrite Hm.
  fold (segmentLength last x y).
  rewrite segmentsLoop_count; [reflexivity|].
  intros Hn.
  destruct (Zceil_bound (segmentLength last x y / 5)) as [Hlow _].
  assert (Hpos : (0 < Zceil (segmentLength last x y / 5))%Z) by lia.
  rewrite INR_IZR_INZ, Z2Nat.id by lia. lra.
Qed.

(** X15: the dots brush anchors its trail at both ends: the first dot sits
    on the previous position and, once the segment is at least 3px long,
    the last dot sits on the current point; a shorter segment (a click
    included) gets the single dot on the previous position. *)
Theorem dots_trail_endpoints env cfg rng last x y :
  brushMode cfg = Dots ->
  let ps := brushStrokePaints env cfg rng last x y in
  let dotAt (px py : R) := FillArc (brushInk cfg) px py (lineWeight cfg) in
  (exists px py, ps !! 0%nat = Some (dotAt px py) /\ px = fst last /\ py = snd last) /\
  (3 <= segmentLength last x y ->
   exists px py, List.last ps (dotAt 0 0) = dotAt px py /\ px = x /\ py = y) /\
  (segmentLength last x y < 3 ->
   exists px py, ps = [dotAt px py] /\ px = fst last /\ py = snd last).
Proof.
  intros Hm ps dotAt.
  set (d := segmentLength last x y).
  set (n := Zfloor (d / 3)).
  assert (Hd0 : 0 <= d) by apply distanceOf_nonneg.
  assert (Hn0 : (0 <= n)%Z) by (apply Zfloor_nonneg; lra).
  set (f := fun i : nat =>
              dotAt (fst last + (x - fst last) * (INR i / Rmax (IZR n) 1))
                    (snd last + (y - snd last) * (INR i / Rmax (IZR n) 1))).
  assert (Hps : ps = map f (seq 0 (Z.to_nat (n + 1)))).
  { unfold ps, brushStrokePaints. rewrite Hm. fold (segmentLength last x y).
    fold d. fold n. apply forUpTo_singleton. }
  assert (Hsucc : Z.to_nat (n + 1) = S (Z.to_nat n)) by lia.
  split; [|split].
  - exists (fst last + (x - fst last) * (INR 0 / Rmax (IZR n) 1)),
           (snd last + (y - snd last) * (INR 0 / Rmax (IZR n) 1)).
    split; [rewrite Hps, Hsucc; reflexivity|].
    cbn [INR]. unfold Rdiv. split; ring.
  - intros Hlong.
    assert (Hn1 : (1 <= n)%Z) by (apply Zfloor_lub; lra).
    exists (fst last + (x - fst last) * (INR (Z.to_nat n) / Rmax (IZR n) 1)),
           (snd last + (y - snd last) * (INR (Z.to_nat n) / Rmax (IZR n) 1)).
    split.
    + rewrite Hps, Hsucc, seq_S, map_app. cbn [map Nat.add].
      apply last_last.
    + assert (Hone : INR (Z.to_nat n) / Rmax (IZR n) 1 = 1).
      { assert (1 <= IZR n) by (apply IZR_le; assumption).
        rewrite Rmax_left by assumption.
        rewrite INR_IZR_INZ, Z2Nat.id by lia. field. lra. }
      rewrite Hone. split; ring.
  - intros Hshort.
    assert (Hzero : n = 0%Z) by (apply Zfloor_eq; cbn; lra).
    exists (fst last + (x - fst last) * (INR 0 / Rmax (IZR n) 1)),
           (snd last + (y - snd last) * (INR 0 / Rmax (IZR n) 1)).
    split; [rewrite Hps, Hsucc; replace (Z.to_nat n) with 0%nat by lia; reflexivity|].
    cbn [INR]. unfold Rdiv. split; ring.
Qed.

End BrushMore.

Lemma segments_dash_count_witness :
  length (brushStrokePaints idleBrowser defaultConfig 0 (0, 0)%R 12 0) =
  Nat.div2 (S (Z.to_nat (Zceil (segmentLength (0, 0)%R 12 0 / 5)))).
Proof.
  apply (segments_dash_count idleBrowser defaultConfig 0 (0, 0)%R 12 0). reflexivity.
Defined.

Lemma dots_trail_endpoints_witness :
  exists px py,
    brushStrokePaints idleBrowser dotsConfig 0 (0, 0)%R 6 0 !! 0%nat
    = Some (FillArc (brushInk dotsConfig) px py (lineWeight dotsConfig)) /\
    px = 0%R /\ py = 0%R.
Proof.
  destruct (dots_trail_endpoints idleBrowser dotsConfig 0 (0, 0)%R 6 0 eq_refl)
    as [Hfirst _].
  exact Hfirst.
Defined.

(** ** Shape stamps *)

Section ShapeMore.
Open Scope R_scope.

(** X17: how many primitives a stamp lays, whatever the point and the
    colour: 24 spokes for the radial stamp, 19 strokes for the mesh (outer
    circle, 16 spokes, 2 inner rings), one circle, 25 circles for the
    mandala (3 layers of 8 petals and the centre), [floor(brushSize / 3)]
    dots for the dotted ring and [floor(brushSize / 8)] rings for the
    concentric one -- none of either when the floor is not positive. *)
Theorem stamp_primitive_counts cfg x y shape :
  length (drawShape cfg x y shape) =
  match shape with
  | Concentric => Z.to_nat (Zfloor (brushSize cfg / 8))
  | Radial => 24
  | Mesh => 19
  | Dotted => Z.to_nat (Zfloor (brushSize cfg / 3))
  | Circle => 1
  | Mandala => 25
  end%nat.
Proof.
  destruct shape; unfold drawShape; cbv zeta.
  - rewrite (forUpTo_length _ 1) by reflexivity. lia.
  - rewrite (forUpTo_length _ 1) by reflexivity. reflexivity.
  - rewrite !length_app, (forUpTo_length _ 1) by reflexivity. reflexivity.
  - rewrite (forUpTo_length _ 1) by reflexivity. lia.
  - reflexivity.
  - rewrite length_app, (forUpTo_length _ 8).
    + reflexivity.
    + intros l. rewrite (forUpTo_length _ 1) by reflexivity. reflexivity.
Qed.

Lemma on_circle (angle b : R) :
  distanceOf (cos angle * b) (sin angle * b) = Rabs b.
Proof.
  unfold distanceOf. rewrite <- sqrt_Rsqr_abs. f_equal. unfold Rsqr.
  transitivity (b * b * (cos angle * cos angle + sin angle * sin angle));
    [ring | rewrite double_angle_unit; ring].
Qed.

(** X18: every spoke of the radial stamp runs from the stamp point to a
    point at distance [|brushSize|] from it, in the stamp's colour, alpha
    and line weight. *)
Theorem radial_spokes_reach_circle cfg x y p :
  In p (drawShape cfg x y Radial) ->
  exists ex ey,
    p = StrokeLine (shapeInk cfg (opacity cfg)) (lineWeight cfg) x y ex ey /\
    distanceOf (ex - x) (ey - y) = Rabs (brushSize cfg).
Proof.
  unfold drawShape. cbv zeta. rewrite forUpTo_singleton. intros Hin.
  apply in_map_iff in Hin as (i & <- & _).
  eexists _, _. split; [reflexivity|].
  match goal with
  | |- distanceOf (x + cos ?a * _ - x) _ = _ =>
      replace (x + cos a * brushSize cfg - x) with (cos a * brushSize cfg) by ring;
      replace (y + sin a * brushSize cfg - y) with (sin a * brushSize cfg) by ring;
      apply on_circle
  end.
Qed.

End ShapeMore.

Lemma radial_spokes_reach_circle_witness :
  exists ex ey,
    StrokeLine (shapeInk defaultConfig (opacity defaultConfig)) (lineWeight defaultConfig)
               100 100 (100 + cos (INR 0 / 24 * PI * 2) * 40) (100 + sin (INR 0 / 24 * PI * 2) * 40)
    = StrokeLine (shapeInk defaultConfig (opacity defaultConfig)) (lineWeight defaultConfig)
                 100 100 ex ey /\
    distanceOf (ex - 100) (ey - 100) = Rabs (brushSize defaultConfig).
Proof.
  apply (radial_spokes_reach_circle defaultConfig 100 100).
  unfold drawShape. cbv zeta. rewrite forUpTo_singleton.
  apply in_map_iff. exists 0%nat. split; [reflexivity|].
  apply in_seq. cbn. lia.
Defined.

(** ** Blend / smudge engine *)

Section BlendMore.
Open Scope R_scope.

(** X19: with a non-negative brush size [drawBlend] never reaches its
    [catch] block: the sample rectangle it reads is never empty, because
    the guard before it has returned in that case, and the gradient radius
    is not negative; and the call never resizes the canvas. *)
Theorem drawBlend_never_errors env cfg c x y lastX lastY :
  0 <= brushSize cfg ->
  snd (drawBlend env cfg c x y lastX lastY) = false /\
  width (fst (drawBlend env cfg c x y lastX lastY)) = width c /\
  height (fst (drawBlend env cfg c x y lastX lastY)) = height c.
Proof.
  intros Hsize. unfold drawBlend.
  destruct (Rlt_dec (distanceOf (x - lastX) (y - lastY)) 1); [auto|].
  fold (blendSourceWidth cfg c lastX) (blendSourceHeight cfg c lastY).
  destruct ((blendSourceWidth cfg c lastX <=? 0)%Z || (blendSourceHeight cfg c lastY <=? 0)%Z)
    eqn:Hguard; [auto|].
  assert (Hempty : (blendSourceWidth cfg c lastX =? 0)%Z
                   || (blendSourceHeight cfg c lastY =? 0)%Z = false) by lia.
  unfold getImageData. rewrite Hempty.
  destruct (Rlt_dec (brushSize cfg * 0.5) 0); [lra|].
  cbn [Z.eqb orb fst snd paint width height]. auto.
Qed.

End BlendMore.

Lemma drawBlend_never_errors_witness :
  snd (drawBlend idleBrowser defaultConfig (solidCanvas 8 8 10 10 10 255) 6 3 3 3) = false /\
  width (fst (drawBlend idleBrowser defaultConfig (solidCanvas 8 8 10 10 10 255) 6 3 3 3)) = 8%Z /\
  height (fst (drawBlend idleBrowser defaultConfig (solidCanvas 8 8 10 10 10 255) 6 3 3 3)) = 8%Z.
Proof.
  apply (drawBlend_never_errors idleBrowser defaultConfig (solidCanvas 8 8 10 10 10 255) 6 3 3 3).
  cbn. lra.
Defined.

(** ** Control panel *)

Section PanelMore.

Lemma panelStep_exclusive cfg act :
  exclusiveModes cfg -> exclusiveModes (panelStep cfg act).
Proof.
  unfold exclusiveModes.
  destruct act; cbn [panelStep shapeMode blendMode fillMode]; try (intros H; exact H);
    destruct (shapeMode cfg), (blendMode cfg), (fillMode cfg); cbn; intuition congruence.
Qed.

(** X25: the panel keeps the stamp, blend and fill modes mutually
    exclusive: from the initial state, whatever buttons and sliders are
    used, at most one of the three is on. *)
Theorem panel_modes_exclusive (acts : list PanelAction) :
  exclusiveModes (panelRun acts defaultConfig).
Proof.
  unfold panelRun.
  assert (H0 : exclusiveModes defaultConfig) by (cbn; auto).
  revert H0. generalize defaultConfig.
  induction acts as [|act acts IH]; intros cfg Hcfg; cbn [fold_left]; [exact Hcfg|].
  apply IH, panelStep_exclusive, Hcfg.
Qed.

End PanelMore.

(** ** Flood fill engine *)

Section FloodMore.
Open Scope Z_scope.

Lemma floodLoop_idle fuel cfg job st :
  pixelsToCheck st = [] -> floodLoop fuel cfg job st = st.
Proof. intros H. destruct fuel; cbn [floodLoop]; [|rewrite H]; reflexivity. Qed.

(** X20: a fill seeded outside the canvas -- as the mirrored seed of a
    click can be -- changes nothing: the loop drops the seed at its bounds
    test and the raster is written back as it was read. *)
Theorem floodFill_seed_outside env cfg rng c startX startY fillColor :
  ~ inCanvas c (seedOf startX startY) ->
  floodFill env cfg rng c startX startY fillColor = c.
Proof.
  intros Hout. unfold floodFill.
  destruct (sameAsFill cfg c startX startY fillColor); [reflexivity|].
  unfold floodFillRun, floodFuel. cbn [floodLoop pixelsToCheck].
  assert (Hstep : floodStep cfg (fillJobOf env cfg rng c startX startY fillColor)
                    (mkFillLoop (data c) (repeat 0 (Z.to_nat (width c * height c)))
                                [Zfloor startY; Zfloor startX])
                  = mkFillLoop (data c) (repeat 0 (Z.to_nat (width c * height c))) []).
  { unfold floodStep. cbn [pixelsToCheck pixels visited jobWidth jobHeight fillJobOf].
    destruct ((Zfloor startX <? 0) || (Zfloor startX >=? width c)
              || (Zfloor startY <? 0) || (Zfloor startY >=? height c)) eqn:Hb;
      [reflexivity|].
    apply inside_inCanvas in Hb. contradiction. }
  rewrite Hstep, floodLoop_idle by reflexivity.
  destruct c; reflexivity.
Qed.

(** X21: a solid fill is idempotent: with a byte colour and an opacity in
    [0, 1], filling again from the same seed returns the canvas the first
    fill produced. *)
Theorem solid_fill_idempotent env cfg rng rng' c startX startY fillColor :
  wellFormed c -> inCanvas c (seedOf startX startY) ->
  fillPattern cfg = Solid -> byteColor fillColor -> (0 <= opacity cfg <= 1)%R ->
  let c' := floodFill env cfg rng c startX startY fillColor in
  floodFill env cfg rng' c' startX startY fillColor = c'.
Proof.
  intros Hwf Hseed Hsolid (Hr & Hg & Hb) Hop c'.
  destruct (sameAsFill cfg c startX startY fillColor) eqn:Hguard.
  - assert (Hc' : c' = c) by (unfold c', floodFill; rewrite Hguard; reflexivity).
    rewrite Hc'. unfold floodFill. rewrite Hguard. reflexivity.
  - assert (Hdiff : pixelOf c (seedOf startX startY) <> fillTarget cfg fillColor).
    { intros H. apply sameAsFill_spec in H. congruence. }
    destruct (floodFill_pixels env cfg rng c startX startY fillColor Hwf Hseed Hdiff)
      as (_ & _ & _ & Hin & _ & _).
    apply floodFill_guarded. fold c' in Hin.
    rewrite (Hin _ Hseed (region_seed c _ Hseed)).
    unfold fillSource, fillTarget. rewrite Hsolid.
    cbn [fillR fillG fillB fillA fillJobOf].
    rewrite !clamp8_byte by (assumption || apply fillAlpha_byte; assumption).
    reflexivity.
Qed.

(** X24: a fill respects boundaries and hands back a canvas of the same
    shape: the result has the size and raster length of the input, and a
    pixel whose value changed carried the seed's RGBA before the call. *)
Theorem fill_respects_boundaries env cfg rng c startX startY fillColor :
  wellFormed c -> inCanvas c (seedOf startX startY) ->
  let c' := floodFill env cfg rng c startX startY fillColor in
  wellFormed c' /\
  forall p, inCanvas c p -> pixelOf c' p <> pixelOf c p ->
            pixelOf c p = pixelOf c (seedOf startX startY).
Proof.
  intros Hwf Hseed c'.
  destruct (sameAsFill cfg c startX startY fillColor) eqn:Hguard.
  - assert (Hc' : c' = c) by (unfold c', floodFill; rewrite Hguard; reflexivity).
    rewrite Hc'. split; [assumption|]. intros p _ H. congruence.
  - assert (Hdiff : pixelOf c (seedOf startX startY) <> fillTarget cfg fillColor).
    { intros H. apply sameAsFill_spec in H. congruence. }
    destruct (floodFill_pixels env cfg rng c startX startY fillColor Hwf Hseed Hdiff)
      as (Hw & Hh & Hlen & _ & Hout & Hdec).
    fold c' in Hw, Hh, Hlen, Hout, Hdec.
    split.
    + destruct Hwf as (H1 & H2 & H3). unfold wellFormed. rewrite Hw, Hh, Hlen. auto.
    + intros p Hp Hchanged. destruct (Hdec p Hp) as [Hreg | Hreg].
      * apply fillRegion_colour. assumption.
      * exfalso. apply Hchanged. apply Hout; assumption.
Qed.

(** On a canvas of one colour every pixel is in the seed's region. *)
Lemma region_of_uniform c seed :
  inCanvas c seed ->
  (forall p, inCanvas c p -> pixelOf c p = pixelOf c seed) ->
  forall p, inCanvas c p -> fillRegion c seed p.
Proof.
  intros Hseed Huni.
  assert (Hrow : forall (n : nat) x, Z.abs (x - fst seed) = Z.of_nat n ->
            0 <= x < width c -> fillRegion c seed (x, snd seed)).
  { induction n as [|n IH]; intros x Hn Hx.
    - assert (x = fst seed) by lia. subst x. destruct seed. apply region_seed. assumption.
    - destruct Hseed as [Hsx Hsy].
      destruct (Z_lt_le_dec (fst seed) x) as [Hgt | Hle].
      + apply (region_grow c seed (x - 1, snd seed)).
        * apply IH; lia.
        * left. cbn [fst snd]. f_equal. lia.
        * split; cbn [fst snd]; lia.
        * apply Huni. split; cbn [fst snd]; lia.
      + apply (region_grow c seed (x + 1, snd seed)).
        * apply IH; lia.
        * right. left. cbn [fst snd]. f_equal. lia.
        * split; cbn [fst snd]; lia.
        * apply Huni. split; cbn [fst snd]; lia. }
  assert (Hcol : forall (n : nat) x y, Z.abs (y - snd seed) = Z.of_nat n ->
            0 <= x < width c -> 0 <= y < height c -> fillRegion c seed (x, y)).
  { induction n as [|n IH]; intros x y Hn Hx Hy.
    - assert (y = snd seed) by lia. subst y. apply (Hrow (Z.to_nat (Z.abs (x - fst seed)))); lia.
    - destruct Hseed as [Hsx Hsy].
      destruct (Z_lt_le_dec (snd seed) y) as [Hgt | Hle].
      + apply (region_grow c seed (x, y - 1)).
        * apply IH; lia.
        * right. right. left. cbn [fst snd]. f_equal. lia.
        * split; cbn [fst snd]; lia.
        * apply Huni. split; cbn [fst snd]; lia.
      + apply (region_grow c seed (x, y + 1)).
        * apply IH; lia.
        * right. right. right. cbn [fst snd]. f_equal. lia.
        * split; cbn [fst snd]; lia.
        * apply Huni. split; cbn [fst snd]; lia. }
  intros [x y] [Hx Hy]. cbn [fst snd] in Hx, Hy.
  apply (Hcol (Z.to_nat (Z.abs (y - snd seed)))); lia.
Qed.

(** X23: filling a canvas of one colour with another recolours all of it:
    every pixel gets the fill source, which for a solid fill with a byte
    colour and an opacity in [0, 1] is the target colour and alpha. *)
Theorem uniform_canvas_filled env cfg rng c startX startY fillColor :
  wellFormed c -> inCanvas c (seedOf startX startY) ->
  (forall p, inCanvas c p -> pixelOf c p = pixelOf c (seedOf startX startY)) ->
  pixelOf c (seedOf startX startY) <> fillTarget cfg fillColor ->
  let c' := floodFill env cfg rng c startX startY fillColor in
  let job := fillJobOf env cfg rng c startX startY fillColor in
  (forall p, inCanvas c p -> pixelOf c' p = fillSource cfg job p) /\
  (fillPattern cfg = Solid -> byteColor fillColor -> (0 <= opacity cfg <= 1)%R ->
   forall p, inCanvas c p -> pixelOf c' p = fillTarget cfg fillColor).
Proof.
  intros Hwf Hseed Huni Hdiff c' job.
  destruct (floodFill_pixels env cfg rng c startX startY fillColor Hwf Hseed Hdiff)
    as (_ & _ & _ & Hin & _ & _).
  fold c' job in Hin.
  assert (Hall : forall p, inCanvas c p -> pixelOf c' p = fillSource cfg job p).
  { intros p Hp. apply Hin; [assumption|]. apply region_of_uniform; assumption. }
  split; [exact Hall|].
  intros Hsolid (Hr & Hg & Hb) Hop p Hp. rewrite (Hall p Hp).
  unfold fillSource, fillTarget. rewrite Hsolid.
  cbn [fillR fillG fillB fillA job fillJobOf].
  rewrite !clamp8_byte by (assumption || apply fillAlpha_byte; assumption).
  reflexivity.
Qed.

Lemma patternTile_size env cfg rng k :
  width (createPatternCanvas env cfg rng k) = 20 /\
  height (createPatternCanvas env cfg rng k) = 20.
Proof. unfold createPatternCanvas. apply paintAll_size. Qed.

Lemma rem_period (x i : Z) : 0 <= x -> 0 <= i -> Z.rem (x + 20 * i) 20 = Z.rem x 20.
Proof.
  intros Hx Hi. rewrite !Z.rem_mod_nonneg by lia.
  replace (x + 20 * i) with (x + i * 20) by ring. apply Z_mod_plus_full.
Qed.

(** X22: a pattern fill tiles the region with period 20, the size of the
    pattern canvas: two pixels of the filled region whose coordinates
    differ by multiples of 20 end up with the same RGBA. *)
Theorem pattern_fill_repeats env cfg rng c startX startY fillColor (p : Pixel) (i j : Z) :
  wellFormed c -> inCanvas c (seedOf startX startY) ->
  pixelOf c (seedOf startX startY) <> fillTarget cfg fillColor ->
  fillPattern cfg <> Solid ->
  0 <= i -> 0 <= j ->
  let q : Pixel := (fst p + 20 * i, snd p + 20 * j) in
  let seed := seedOf startX startY in
  let c' := floodFill env cfg rng c startX startY fillColor in
  inCanvas c p -> inCanvas c q -> fillRegion c seed p -> fillRegion c seed q ->
  pixelOf c' q = pixelOf c' p.
Proof.
  intros Hwf Hseed Hdiff Hpat Hi Hj q seed c' Hp Hq Hrp Hrq.
  destruct (floodFill_pixels env cfg rng c startX startY fillColor Hwf Hseed Hdiff)
    as (_ & _ & _ & Hin & _ & _).
  fold c' seed in Hin. rewrite (Hin p Hp Hrp), (Hin q Hq Hrq).
  destruct (patternTile_size env cfg rng fillColor) as [Htw Hth].
  destruct Hp as [Hpx Hpy].
  unfold fillSource, fillJobOf. cbn [patternCanvas].
  destruct (fillPattern cfg); [congruence| | | |];
    rewrite Htw, Hth; unfold q; cbn [fst snd];
    rewrite !rem_period by lia; reflexivity.
Qed.

End FloodMore.

(** A click at (5, 0) on a 2 x 1 canvas. *)
Lemma floodFill_seed_outside_witness :
  let c := solidCanvas 2 1 10 10 10 255 in
  ~ inCanvas c (seedOf 5 0) /\
  floodFill idleBrowser fillConfig 0 c 5 0 cyanGlow = c.
Proof.
  intros c.
  assert (Hout : ~ inCanvas c (seedOf 5 0)).
  { unfold seedOf. rewrite (ZfloorZ 5). intros [Hx _]. cbn in Hx. lia. }
  split; [exact Hout|].
  apply (floodFill_seed_outside idleBrowser fillConfig 0 c 5 0 cyanGlow Hout).
Defined.

(** The 2 x 1 background canvas filled twice with cyan. *)
Lemma solid_fill_idempotent_witness :
  let c := solidCanvas 2 1 10 10 10 255 in
  let c' := floodFill idleBrowser fillConfig 0 c 0 0 cyanGlow in
  (wellFormed c /\ inCanvas c (seedOf 0 0)) /\
  floodFill idleBrowser fillConfig 7 c' 0 0 cyanGlow = c'.
Proof.
  intros c c'.
  destruct (solid_2x1_facts 10 10 10 255) as (Hwf & Hseed & _ & _). fold c in Hwf, Hseed.
  split; [auto|].
  apply (solid_fill_idempotent idleBrowser fillConfig 0 7%nat c 0 0 cyanGlow Hwf Hseed).
  - reflexivity.
  - unfold byteColor. cbn. lia.
  - cbn. lra.
Defined.

Lemma stripe_facts :
  wellFormed stripeCanvas /\ inCanvas stripeCanvas (seedOf 0 0).
Proof. rewrite seedOf_origin. repeat split; cbn; lia. Qed.

(** The stripe filled from its left pixel. *)
Lemma fill_respects_boundaries_witness :
  let c' := floodFill idleBrowser fillConfig 0 stripeCanvas 0 0 cyanGlow in
  wellFormed c' /\
  forall p, inCanvas stripeCanvas p -> pixelOf c' p <> pixelOf stripeCanvas p ->
            pixelOf stripeCanvas p = pixelOf stripeCanvas (seedOf 0 0).
Proof.
  destruct stripe_facts as [Hwf Hseed].
  exact (fill_respects_boundaries idleBrowser fillConfig 0 stripeCanvas 0 0 cyanGlow
           Hwf Hseed).
Defined.

Lemma solid_row_uniform (n : nat) r g b al (p : Pixel) :
  inCanvas (solidCanvas (Z.of_nat n) 1 r g b al) p ->
  pixelOf (solidCanvas (Z.of_nat n) 1 r g b al) p = (Some r, Some g, Some b, Some al).
Proof.
  destruct p as [x y]. intros [Hx Hy]. cbn [fst snd width height solidCanvas] in Hx, Hy.
  assert (Hy0 : (y = 0)%Z) by lia. subst y.
  unfold pixelOf, rgbaAt, solidCanvas. cbn [data width fst snd].
  replace (Z.to_nat (Z.of_nat n * 1)) with n by lia.
  replace ((0 * Z.of_nat n + x) * 4)%Z with (4 * x)%Z by lia.
  assert (Hget : forall (m k : nat) (i : Z), (k < m)%nat -> (0 <= i < 4)%Z ->
            forall s, jsGet (flat_map (fun _ : nat => [r; g; b; al]) (seq s m))
                        (4 * Z.of_nat k + i)
                      = nth_error [r; g; b; al] (Z.to_nat i)).
  { induction m as [|m IH]; intros k i Hk Hi s; [lia|].
    cbn [seq flat_map]. destruct k as [|k].
    - assert (Hc : (i = 0 \/ i = 1 \/ i = 2 \/ i = 3)%Z) by lia.
      destruct Hc as [-> | [-> | [-> | ->]]]; reflexivity.
    - rewrite <- (IH k i ltac:(lia) Hi (S s)).
      unfold jsGet.
      assert (H0 : (4 * Z.of_nat (S k) + i <? 0)%Z = false) by (apply Z.ltb_ge; lia).
      assert (H1 : (4 * Z.of_nat k + i <? 0)%Z = false) by (apply Z.ltb_ge; lia).
      rewrite H0, H1.
      replace (Z.to_nat (4 * Z.of_nat (S k) + i))
        with (4 + Z.to_nat (4 * Z.of_nat k + i))%nat by lia.
      reflexivity. }
  replace x with (Z.of_nat (Z.to_nat x)) by lia.
  replace (4 * Z.of_nat (Z.to_nat x))%Z with (4 * Z.of_nat (Z.to_nat x) + 0)%Z at 1 by lia.
  rewrite !Hget by lia. reflexivity.
Qed.

(** The 2 x 1 background canvas: both pixels end up cyan at alpha 178. *)
Lemma uniform_canvas_filled_witness :
  let c := solidCanvas 2 1 10 10 10 255 in
  let c' := floodFill idleBrowser fillConfig 0 c 0 0 cyanGlow in
  (wellFormed c /\ inCanvas c (seedOf 0 0)) /\
  forall p, inCanvas c p -> pixelOf c' p = fillTarget fillConfig cyanGlow.
Proof.
  intros c c'.
  destruct (solid_2x1_facts 10 10 10 255) as (Hwf & Hseed & _ & Hpix).
  fold c in Hwf, Hseed, Hpix.
  split; [auto|].
  assert (Huni : forall p, inCanvas c p -> pixelOf c p = pixelOf c (seedOf 0 0)).
  { intros p Hp. rewrite Hpix. apply (solid_row_uniform 2). exact Hp. }
  assert (Hdiff : pixelOf c (seedOf 0 0) <> fillTarget fillConfig cyanGlow).
  { rewrite Hpix, (proj1 fillTarget_cyan). discriminate. }
  apply (uniform_canvas_filled idleBrowser fillConfig 0 c 0 0 cyanGlow
           Hwf Hseed Huni Hdiff).
  - reflexivity.
  - unfold byteColor. cbn. lia.
  - cbn. lra.
Defined.

(** A 21 x 1 background row filled with the dots pattern: pixel 20 gets
    what pixel 0 gets. *)
Lemma pattern_fill_repeats_witness :
  let c := solidCanvas 21 1 10 10 10 255 in
  let c' := floodFill idleBrowser dotsFillConfig 0 c 0 0 cyanGlow in
  (wellFormed c /\ inCanvas c (seedOf 0 0) /\
   fillRegion c (seedOf 0 0) (0, 0)%Z /\ fillRegion c (seedOf 0 0) (20, 0)%Z) /\
  pixelOf c' (20, 0)%Z = pixelOf c' (0, 0)%Z.
Proof.
  intros c c'.
  assert (Hwf : wellFormed c) by (repeat split; cbn; lia).
  assert (Hseed : inCanvas c (seedOf 0 0)) by (rewrite seedOf_origin; split; cbn; lia).
  assert (Hp : inCanvas c (0, 0)%Z) by (split; cbn; lia).
  assert (Hq : inCanvas c (20, 0)%Z) by (split; cbn; lia).
  assert (Hpix : forall p, inCanvas c p -> pixelOf c p = (Some 10, Some 10, Some 10, Some 255)%Z).
  { intros p. apply (solid_row_uniform 21). }
  assert (Huni : forall p, inCanvas c p -> pixelOf c p = pixelOf c (seedOf 0 0)).
  { intros p H. rewrite (Hpix p H), (Hpix _ Hseed). reflexivity. }
  assert (Hrp : fillRegion c (seedOf 0 0) (0, 0)%Z)
    by (apply region_of_uniform; assumption).
  assert (Hrq : fillRegion c (seedOf 0 0) (20, 0)%Z)
    by (apply region_of_uniform; assumption).
  assert (Hdiff : pixelOf c (seedOf 0 0) <> fillTarget dotsFillConfig cyanGlow).
  { rewrite (Hpix _ Hseed), (proj2 fillTarget_cyan). discriminate. }
  split; [auto|].
  apply (pattern_fill_repeats idleBrowser dotsFillConfig 0 c 0 0 cyanGlow (0, 0)%Z 1 0
           Hwf Hseed Hdiff); try assumption; try lia.
  discriminate.
Defined.
